(** * DocumentParserViewer: edit tracking, box geometry, text view, file scan

    A shallow embedding of [src/utils.py], of the text loop and the drawing
    loop of [src/visualizer.py], of [scan_data_folder] of [src/parser.py] and
    of the edit handlers of [src/interactive_ui.py], with the properties of
    the specification stated and settled against it.

    Conventions of the embedding.
    - Python [float] coordinates are finite and kept as exact rationals
      [Q]; the integers mixed with them (adjustments, image sizes, the
      literal [0]) enter through [inject_Z].  The geometry only compares,
      adds and subtracts them, and equality of results is numeric ([==]).
      A float addition or subtraction rounds where the rational one does
      not: order and sign of the results are the same, and so is every
      value computed from whole-pixel coordinates, but a value computed
      from other coordinates can differ from the float in its last digits.
    - Python [int] indices are [Z]; [str] is [string] (UTF-8 bytes).
    - An exception is an explicit failure value ([None], or [inl] with the
      message).
    - Element dictionaries are mutable and shared: they live in a [store]
      and lists hold their locations. *)

From Stdlib Require Import QArith Qabs Lqa ZArith Lia String Ascii DecimalString.
From stdpp Require Import base option list gmap sets strings sorting.

Local Open Scope Z_scope.
Local Open Scope string_scope.
Local Open Scope list_scope.

(** ** Python built-ins used by the sources *)

Module Py.

(** [a < b] on floats. *)
Definition Qltb (a b : Q) : bool := negb (Qle_bool b a).

(** [min(a, b)]: the later argument wins only when strictly smaller. *)
Definition min2 (a b : Q) : Q := if Qltb b a then b else a.

(** [max(a, b)]: the later argument wins only when strictly greater. *)
Definition max2 (a b : Q) : Q := if Qltb a b then b else a.

(** [min(xs)] of a list; [ValueError] on the empty list. *)
Definition min (xs : list Q) : option Q :=
  match xs with
  | [] => None
  | x :: rest => Some (fold_left min2 rest x)
  end.

(** [max(xs)] of a list; [ValueError] on the empty list. *)
Definition max (xs : list Q) : option Q :=
  match xs with
  | [] => None
  | x :: rest => Some (fold_left max2 rest x)
  end.

(** [int(x)] of a float: truncation towards zero. *)
Definition int (x : Q) : Z := Z.quot (Qnum x) (Zpos (Qden x)).

(** [str(n)] of an integer: decimal digits, with a sign when negative. *)
Definition str (n : Z) : string := NilZero.string_of_int (Z.to_int n).

(** [s * n]: repetition of a string. *)
Fixpoint repeat_str (s : string) (n : nat) : string :=
  match n with
  | O => ""
  | S k => String.append s (repeat_str s k)
  end.

(** [sep.join(parts)]. *)
Definition join (sep : string) (parts : list string) : string :=
  String.concat sep parts.

(** [l[i]] on a list: negative indices count from the end, anything
    outside [-len, len) is an [IndexError]. *)
Definition getitem {A} (l : list A) (i : Z) : option A :=
  if bool_decide (0 <= i < Z.of_nat (length l)) then l !! Z.to_nat i
  else if bool_decide (- Z.of_nat (length l) <= i < 0)
       then l !! Z.to_nat (Z.of_nat (length l) + i)
       else None.

End Py.

(** ** Geometry ([src/utils.py], lines 64-126) *)

Definition point : Type := Q * Q.

(** [bbox = (min(xs), min(ys), max(xs), max(ys))], the axis-aligned bounding
    box as [parse_region] and [adjust_coordinates] compute it. *)
Definition bounding_box (coordinates : list point) : option (Q * Q * Q * Q) :=
  let xs := map fst coordinates in
  let ys := map snd coordinates in
  min_x ← Py.min xs;
  min_y ← Py.min ys;
  max_x ← Py.max xs;
  max_y ← Py.max ys;
  Some (min_x, min_y, max_x, max_y).

Definition adjust_coordinates (coordinates : list point)
    (left_adjust right_adjust top_adjust bottom_adjust : Z)
    (image_width image_height : Z) : option (list point) :=
  let xs := map fst coordinates in
  let ys := map snd coordinates in
  min_x ← Py.min xs;
  max_x ← Py.max xs;
  min_y ← Py.min ys;
  max_y ← Py.max ys;
  let new_min_x := Py.max2 (inject_Z 0) (min_x - inject_Z left_adjust)%Q in
  let new_max_x := Py.min2 (inject_Z image_width) (max_x + inject_Z right_adjust)%Q in
  let new_min_y := Py.max2 (inject_Z 0) (min_y - inject_Z top_adjust)%Q in
  let new_max_y := Py.min2 (inject_Z image_height) (max_y + inject_Z bottom_adjust)%Q in
  Some [ (new_min_x, new_min_y);
         (new_max_x, new_min_y);
         (new_max_x, new_max_y);
         (new_min_x, new_max_y) ].

Definition get_bounding_box_size (coordinates : list point) : option (Z * Z) :=
  let xs := map fst coordinates in
  let ys := map snd coordinates in
  max_xs ← Py.max xs;
  min_xs ← Py.min xs;
  max_ys ← Py.max ys;
  min_ys ← Py.min ys;
  let width := (max_xs - min_xs)%Q in
  let height := (max_ys - min_ys)%Q in
  Some (Py.int width, Py.int height).

(** The two-sided clamp the specification writes for the adjusted bounds:
    [clamp(v, lo, hi)] is [v] forced into [[lo, hi]]. *)
Definition spec_clamp (v lo hi : Q) : Q :=
  if Py.Qltb v lo then lo else if Py.Qltb hi v then hi else v.

Definition scenario_box : list point :=
  [ (inject_Z 100, inject_Z 100); (inject_Z 300, inject_Z 100);
    (inject_Z 300, inject_Z 200); (inject_Z 100, inject_Z 200) ].

(** A polygon reaching beyond the right edge of a 400 x 300 image. *)
Definition outside_box : list point :=
  [ (inject_Z 100, inject_Z 100); (inject_Z 500, inject_Z 200) ].

(** Numeric equality ([==]) of two bounding boxes, bound by bound. *)
Definition bbox_eq (b1 b2 : Q * Q * Q * Q) : Prop :=
  let '(min_x1, min_y1, max_x1, max_y1) := b1 in
  let '(min_x2, min_y2, max_x2, max_y2) := b2 in
  (min_x1 == min_x2 /\ min_y1 == min_y2 /\ max_x1 == max_x2 /\ max_y1 == max_y2)%Q.

(** A point lies on the image: [0 <= x <= image_width], [0 <= y <= image_height]. *)
Definition in_image (image_width image_height : Z) (p : point) : Prop :=
  (inject_Z 0 <= fst p <= inject_Z image_width
   /\ inject_Z 0 <= snd p <= inject_Z image_height)%Q.

(** ** Elements and their store ([src/parser.py], lines 54-58) *)

Record element := Element {
  type : string;
  text : string;
  coordinates : option (list point)
}.

(** Element dictionaries are objects: a list of elements is a list of
    references, and a location is a position in the store. *)
Abbreviation loc := nat (only parsing).
Abbreviation store := (list element) (only parsing).

Record file_data := FileData {
  filename : string;
  filepath : string;
  elements : list loc;
  full_text : string
}.

Record edit_tracking := EditTracking {
  original : list loc;
  current : list loc;
  edited_indices : gset Z
}.

(** The values a list of references denotes; [None] on a dangling one. *)
Definition read_list (st : store) (ls : list loc) : option (list element) :=
  mapM (fun l => st !! l) ls.

(** [copy.deepcopy] of a list of element dictionaries: every dictionary met
    for the first time is copied into a new object, and the memo makes a
    dictionary that occurs again map to the copy already made. *)
Fixpoint deepcopy_list (st : store) (memo : gmap loc loc) (ls : list loc)
    : option (store * list loc) :=
  match ls with
  | [] => Some (st, [])
  | l :: rest =>
      match memo !! l with
      | Some l' =>
          '(st', out) ← deepcopy_list st memo rest;
          Some (st', l' :: out)
      | None =>
          e ← st !! l;
          '(st', out) ← deepcopy_list (st ++ [e]) (<[l := length st]> memo) rest;
          Some (st', length st :: out)
      end
  end.

Definition deepcopy (st : store) (ls : list loc) : option (store * list loc) :=
  deepcopy_list st ∅ ls.

(** Every reference of the list is an object of the store, as every
    reference of a Python list is. *)
Definition valid_refs (st : store) (ls : list loc) : Prop :=
  Forall (fun l => (l < length st)%nat) ls.

(** The memo of a running [deepcopy]: it maps an object already met to its
    copy, which was made after [base] and holds the same value. *)
Definition memo_ok (st : store) (memo : gmap loc loc) (base : nat) : Prop :=
  forall l l', memo !! l = Some l' ->
    (base <= l')%nat /\ exists e, st !! l = Some e /\ st !! l' = Some e.

(** ** Edit tracking ([src/utils.py], lines 5-61 and 129-156) *)

Definition initialize_edit_tracking (st : store) (fd : file_data)
    : option (store * edit_tracking) :=
  '(st1, orig) ← deepcopy st (elements fd);
  '(st2, cur) ← deepcopy st1 (elements fd);
  Some (st2, {| original := orig; current := cur; edited_indices := ∅ |}).

Definition set_type (new_type : string) (e : element) : element :=
  {| type := new_type; text := text e; coordinates := coordinates e |}.

Definition set_text (new_text : string) (e : element) : element :=
  {| type := type e; text := new_text; coordinates := coordinates e |}.

Definition set_coordinates (coords : list point) (e : element) : element :=
  {| type := type e; text := text e; coordinates := Some coords |}.

Definition update_element_type (st : store) (elements : list loc)
    (element_index : Z) (new_type : string) : store * list loc :=
  if bool_decide (0 <= element_index < Z.of_nat (length elements)) then
    match elements !! Z.to_nat element_index with
    | Some l => (alter (set_type new_type) l st, elements)
    | None => (st, elements)
    end
  else (st, elements).

Definition replace_element_with_reparsed (st : store) (elements : list loc)
    (element_index : Z) (new_text : string) : store * list loc :=
  if bool_decide (0 <= element_index < Z.of_nat (length elements)) then
    match elements !! Z.to_nat element_index with
    | Some l => (alter (set_text new_text) l st, elements)
    | None => (st, elements)
    end
  else (st, elements).

(** [elements[idx]['coordinates'] = coords] ([src/interactive_ui.py],
    line 307); [None] is the [IndexError] of the list access. *)
Definition setitem_coordinates (st : store) (elements : list loc)
    (idx : Z) (coords : list point) : option store :=
  l ← Py.getitem elements idx;
  Some (alter (set_coordinates coords) l st).

Definition element_changes (original current : element) : list string :=
  let changes := [] in
  let changes :=
    if bool_decide (type original ≠ type current)
    then changes ++ ["Type: " +:+ type original +:+ " → " +:+ type current]
    else changes in
  let changes :=
    if bool_decide (text original ≠ text current)
    then changes ++ ["Text modified"]
    else changes in
  changes.

(** The loop of lines 143-154 over the sorted indices. *)
Fixpoint summary_loop (st : store) (et : edit_tracking) (idxs : list Z)
    (summary_parts : list string) : option (list string) :=
  match idxs with
  | [] => Some summary_parts
  | idx :: rest =>
      lo ← Py.getitem (original et) idx;
      original ← st !! lo;
      lc ← Py.getitem (current et) idx;
      current ← st !! lc;
      let changes := element_changes original current in
      let summary_parts :=
        match changes with
        | [] => summary_parts
        | _ => summary_parts
                 ++ ["Element " +:+ Py.str (idx + 1) +:+ ": " +:+ Py.join ", " changes]
        end in
      summary_loop st et rest summary_parts
  end.

(** [sorted(s)] of a set of integers. *)
Definition sorted_indices (s : gset Z) : list Z := merge_sort Z.le (base.elements s).

Definition newline : string := String (ascii_of_nat 10) EmptyString.

Definition get_edit_summary (st : store) (et : edit_tracking) : option string :=
  if bool_decide (edited_indices et = ∅) then Some "No edits made"
  else
    summary_parts ← summary_loop st et (sorted_indices (edited_indices et)) [];
    Some (Py.join newline summary_parts).

(** ** The edit handlers of [main] ([src/interactive_ui.py]) *)

(** A session: the store and the tracking record of the selected file. *)
Abbreviation session := (list element * edit_tracking)%type (only parsing).

(** The statements the handlers are made of. *)
Inductive edit_op :=
  | UpdateType (idx : Z) (new_type : string)
  | ReplaceText (idx : Z) (new_text : string)
  | SetCoordinates (idx : Z) (coords : list point)
  | AddEdited (idx : Z)
  | Summary.

(** One statement; [None] when it raises. *)
Definition apply_op (s : session) (op : edit_op) : option session :=
  let '(st, et) := s in
  match op with
  | UpdateType idx new_type =>
      let '(st', cur) := update_element_type st (current et) idx new_type in
      Some (st', {| original := original et; current := cur;
                    edited_indices := edited_indices et |})
  | ReplaceText idx new_text =>
      let '(st', cur) := replace_element_with_reparsed st (current et) idx new_text in
      Some (st', {| original := original et; current := cur;
                    edited_indices := edited_indices et |})
  | SetCoordinates idx coords =>
      st' ← setitem_coordinates st (current et) idx coords;
      Some (st', et)
  | AddEdited idx =>
      Some (st, {| original := original et; current := current et;
                   edited_indices := {[idx]} ∪ edited_indices et |})
  | Summary =>
      _ ← get_edit_summary st et;
      Some s
  end.

(** A statement that raises leaves the session as it was. *)
Definition exec_op (s : session) (op : edit_op) : session :=
  default s (apply_op s op).

Definition run_ops (s : session) (ops : list edit_op) : session :=
  fold_left exec_op ops s.

(** "Update Type" (lines 195-202). *)
Definition on_update_type (s : session) (element_to_edit : Z) (new_type : string)
    : session :=
  let '(st, et) := s in
  let idx := element_to_edit - 1 in
  let '(st', cur) := update_element_type st (current et) idx new_type in
  (st', {| original := original et; current := cur;
           edited_indices := {[idx]} ∪ edited_indices et |}).

(** "Re-parse with Adjusted Region" (lines 294-312); [parsed] is what
    [parse_region] returned, [None] when it raised.  Every exception is
    caught by the handler and ends it. *)
Definition on_reparse (s : session) (element_to_reparse : Z)
    (parsed : option string) (adjusted_coords : list point) : session :=
  let '(st, et) := s in
  let idx := element_to_reparse - 1 in
  match parsed with
  | None => s
  | Some new_text =>
      let '(st1, cur) := replace_element_with_reparsed st (current et) idx new_text in
      let et1 := {| original := original et; current := cur;
                    edited_indices := edited_indices et |} in
      match setitem_coordinates st1 cur idx adjusted_coords with
      | None => (st1, et1)
      | Some st2 =>
          (st2, {| original := original et; current := cur;
                   edited_indices := {[idx]} ∪ edited_indices et |})
      end
  end.

(** A small parse result: a title without coordinates and a table. *)
Definition sample_store : store :=
  [ {| type := "Title"; text := "Report"; coordinates := None |};
    {| type := "Table"; text := "a b"; coordinates := Some scenario_box |} ].

Definition sample_file : file_data :=
  {| filename := "scan.tif"; filepath := "data/scan.tif";
     elements := [0%nat; 1%nat]; full_text := "Report" |}.

(** The session [initialize_edit_tracking] makes of it, and some edits. *)
Definition sample_session : session :=
  (sample_store ++ sample_store ++ sample_store,
   {| original := [2%nat; 3%nat]; current := [4%nat; 5%nat];
      edited_indices := ∅ |}).

Definition sample_relabel : list edit_op :=
  [UpdateType 0 "Header"; AddEdited 0].

Definition sample_edits : list edit_op :=
  [UpdateType 0 "Header"; AddEdited 0;
   ReplaceText 1 "c d"; SetCoordinates 1 outside_box; AddEdited 1].

(** A session that descends from [s1] by edit statements: the two lists of
    the record are the same lists, and every object below [mid] (the parse
    result and the copies held by [original]) still has the value it had. *)
Definition descends (s1 : session) (mid : nat) (s : session) : Prop :=
  original (snd s) = original (snd s1) /\
  current (snd s) = current (snd s1) /\
  edited_indices (snd s1) ⊆ edited_indices (snd s) /\
  length (fst s) = length (fst s1) /\
  forall l, (l < mid)%nat -> fst s !! l = fst s1 !! l.

(** The number of line breaks in a text, and of its lines. *)
Fixpoint count_newlines (s : string) : nat :=
  match s with
  | EmptyString => 0%nat
  | String c r =>
      ((if Ascii.eqb c (ascii_of_nat 10) then 1 else 0) + count_newlines r)%nat
  end.

Definition line_count (s : string) : nat := S (count_newlines s).

(** ** Overlay and text view ([src/visualizer.py]) *)

Definition rgb : Type := Z * Z * Z.
Definition rgba : Type := Z * Z * Z * Z.

Definition scheme_Default : list (string * rgb) :=
  [ ("Title", (255, 0, 0)); ("NarrativeText", (0, 255, 0));
    ("ListItem", (0, 0, 255)); ("Table", (255, 165, 0));
    ("Image", (255, 0, 255)); ("Header", (255, 255, 0));
    ("Footer", (0, 255, 255)); ("PageBreak", (128, 128, 128));
    ("UncategorizedText", (128, 0, 128)) ].

Definition scheme_High_Contrast : list (string * rgb) :=
  [ ("Title", (255, 0, 0)); ("NarrativeText", (0, 255, 0));
    ("ListItem", (0, 0, 255)); ("Table", (255, 255, 0));
    ("Image", (255, 0, 255)); ("Header", (0, 255, 255));
    ("Footer", (255, 128, 0)); ("PageBreak", (255, 255, 255));
    ("UncategorizedText", (128, 255, 128)) ].

Definition scheme_Pastel : list (string * rgb) :=
  [ ("Title", (255, 182, 193)); ("NarrativeText", (173, 216, 230));
    ("ListItem", (221, 160, 221)); ("Table", (255, 218, 185));
    ("Image", (216, 191, 216)); ("Header", (255, 250, 205));
    ("Footer", (176, 224, 230)); ("PageBreak", (211, 211, 211));
    ("UncategorizedText", (255, 228, 196)) ].

Definition scheme_Monochrome : list (string * rgb) :=
  [ ("Title", (255, 255, 255)); ("NarrativeText", (220, 220, 220));
    ("ListItem", (180, 180, 180)); ("Table", (140, 140, 140));
    ("Image", (100, 100, 100)); ("Header", (255, 255, 255));
    ("Footer", (200, 200, 200)); ("PageBreak", (160, 160, 160));
    ("UncategorizedText", (120, 120, 120)) ].

Definition COLOR_SCHEMES : list (string * list (string * rgb)) :=
  [ ("Default", scheme_Default); ("High Contrast", scheme_High_Contrast);
    ("Pastel", scheme_Pastel); ("Monochrome", scheme_Monochrome) ].

Definition DEFAULT_COLOR : rgb := (255, 100, 100).

(** [d.get(key, fallback)] on a dictionary kept as an association list. *)
Fixpoint dict_get {V} (d : list (string * V)) (key : string) (fallback : V) : V :=
  match d with
  | [] => fallback
  | (k, v) :: rest => if bool_decide (k = key) then v else dict_get rest key fallback
  end.

Definition get_color_scheme (scheme_name : string) : list (string * rgb) :=
  dict_get COLOR_SCHEMES scheme_name scheme_Default.

(** The drawing calls made on the overlay, in order. *)
Inductive draw_op :=
  | Polygon (coords : list point) (outline : rgba) (width : Z)
  | LabelBackground (xy : point) (label : string) (fill : rgba)
  | LabelText (xy : point) (label : string) (fill : rgba).

(** [draw.polygon(coords, outline=..., width=width)] of Pillow: the outline
    is drawn only for a width other than 0, and drawing it raises
    [TypeError] when the list has fewer than two points. *)
Definition polygon_raises (coords : list point) (width : Z) : bool :=
  negb (Z.eqb width 0) && Nat.ltb (length coords) 2.

(** The body of the loop of lines 108-133 for one element; [None] is the
    [TypeError] of [draw.polygon]. *)
Definition draw_element (colors : list (string * rgb)) (box_width : Z)
    (transparency : Q) (show_numbers : bool) (idx : Z) (element : element)
    : option (list draw_op) :=
  match coordinates element with
  | None => Some []
  | Some coords =>
      let element_type := type element in
      let '(r, g, b) := dict_get colors element_type DEFAULT_COLOR in
      let alpha := Py.int (inject_Z 255 * transparency)%Q in
      let color_with_alpha := (r, g, b, alpha) in
      if polygon_raises coords box_width then None
      else
        Some (Polygon coords color_with_alpha box_width ::
              match show_numbers, coords with
              | true, xy :: _ =>
                  let label := Py.str idx in
                  [ LabelBackground xy label color_with_alpha;
                    LabelText xy label (255, 255, 255, 255) ]
              | _, _ => []
              end)
  end.

(** [for idx, element in enumerate(elements, idx)]: the overlay after the
    remaining elements, or the exception of the first element that raises. *)
Fixpoint draw_loop (colors : list (string * rgb)) (box_width : Z)
    (transparency : Q) (show_numbers : bool) (idx : Z)
    (elements : list element) (overlay : list draw_op)
    : option (list draw_op) :=
  match elements with
  | [] => Some overlay
  | element :: rest =>
      ops ← draw_element colors box_width transparency show_numbers idx element;
      draw_loop colors box_width transparency show_numbers (idx + 1) rest
        (overlay ++ ops)
  end.

(** The image is kept as the operations drawn on its overlay. *)
Definition draw_bounding_boxes (elements : list element) (box_width : Z)
    (transparency : Q) (show_numbers : bool) (color_scheme : string)
    : option (list draw_op) :=
  let colors := get_color_scheme color_scheme in
  draw_loop colors box_width transparency show_numbers 1 elements [].

(** An element that [draw_bounding_boxes] can pass: it has no coordinates,
    or [draw.polygon] accepts them. *)
Definition drawable (box_width : Z) (e : element) : Prop :=
  match coordinates e with
  | None => True
  | Some coords => polygon_raises coords box_width = false
  end.

(** The loop of lines 232-238. *)
Fixpoint text_loop (show_numbers : bool) (idx : Z) (elements : list element)
    (text_parts : list string) : list string :=
  match elements with
  | [] => text_parts
  | element :: rest =>
      let text_parts :=
        if show_numbers
        then text_parts ++ ["[" +:+ Py.str idx +:+ "] " +:+ type element]
        else text_parts ++ [type element] in
      let text_parts := text_parts ++ [text element] in
      let text_parts := text_parts ++ [Py.repeat_str "-" 50] in
      text_loop show_numbers (idx + 1) rest text_parts
  end.

(** The image is drawn first (lines 221-228): when that raises, no text is
    returned either. *)
Definition create_side_by_side_view (elements : list element) (box_width : Z)
    (transparency : Q) (show_numbers : bool) (color_scheme : string)
    : option (list draw_op * string) :=
  annotated_img ←
    draw_bounding_boxes elements box_width transparency show_numbers color_scheme;
  let text_parts := text_loop show_numbers 1 elements [] in
  let formatted_text := Py.join newline text_parts in
  Some (annotated_img, formatted_text).

(** The header line of an element at ordinal [n]. *)
Definition header_line (show_numbers : bool) (n : Z) (e : element) : string :=
  if show_numbers then "[" +:+ Py.str n +:+ "] " +:+ type e else type e.

Definition separator_line : string :=
  "--------------------------------------------------".

Definition is_polygon (op : draw_op) : bool :=
  match op with Polygon _ _ _ => true | _ => false end.

Definition has_coordinates (e : element) : bool :=
  match coordinates e with Some _ => true | None => false end.

Definition count_polygons (overlay : list draw_op) : nat :=
  length (List.filter is_polygon overlay).

Definition count_with_coordinates (elements : list element) : nat :=
  length (List.filter has_coordinates elements).

(** ** File discovery ([src/parser.py], lines 7-27) *)

(** The part of the file system the scan looks at: for a path, [None] when
    nothing exists there, else the names directly inside it (none for a
    path that is not a directory), in the order the system lists them. *)
Definition filesystem : Type := string -> option (list string).

(** A name matches the pattern [*suffix] when it ends with [suffix]; the
    match is by exact characters, as on a POSIX path. *)
Definition ends_with (suffix name : string) : bool :=
  let n := String.length name in
  let k := String.length suffix in
  (k <=? n)%nat && String.eqb (substring (n - k) k name) suffix.

(** [folder.glob("*" + suffix)]. *)
Definition glob_star (entries : list string) (suffix : string) : list string :=
  filter (fun name => ends_with suffix name = true) entries.

(** Sibling paths compare by their last component. *)
Definition name_le (a b : string) : Prop := String.leb a b = true.

#[global] Instance name_le_dec : RelDecision name_le.
Proof. intros a b. unfold name_le. apply _. Defined.

(** How [Path] reads a POSIX path: the root is ["/"] for a path that starts
    with one slash or with three or more, ["//"] for exactly two, and the
    parts are the pieces between slashes that are neither empty nor ["."]. *)
Definition posix_root (path : string) : string :=
  match path with
  | String "/" (String "/" (String "/" _)) => "/"
  | String "/" (String "/" _) => "//"
  | String "/" _ => "/"
  | _ => ""
  end.

Fixpoint split_sep (path : string) (piece : string) : list string :=
  match path with
  | EmptyString => [piece]
  | String c rest =>
      if Ascii.eqb c "/" then piece :: split_sep rest ""
      else split_sep rest (piece +:+ String c EmptyString)
  end.

Definition path_parts (path : string) : list string :=
  List.filter (fun piece => negb (String.eqb piece "") && negb (String.eqb piece "."))
              (split_sep path "").

Fixpoint parts_prefix (parts : list string) : string :=
  match parts with
  | [] => ""
  | part :: rest => part +:+ "/" +:+ parts_prefix rest
  end.

(** [str(f)] of the entry [name] found under [Path(folder_path)]: the root
    and the parts of the folder, then the name, joined by single slashes. *)
Definition path_str (folder_path name : string) : string :=
  posix_root folder_path +:+ parts_prefix (path_parts folder_path) +:+ name.

Definition scan_data_folder (fs : filesystem) (folder_path : string)
    : string + list string :=
  match fs folder_path with
  | None => inl ("Folder not found: " +:+ folder_path)
  | Some entries =>
      let tiff_files :=
        fold_left (fun tiff_files ext => tiff_files ++ glob_star entries ext)
                  [".tiff"; ".tif"; ".TIFF"; ".TIF"] [] in
      inr (map (path_str folder_path) (merge_sort name_le tiff_files))
  end.

(** A folder with a mixed-case extension among its entries. *)
Definition sample_fs : filesystem :=
  fun path =>
    if String.eqb path "data"
    then Some ["b.tif"; "scan.Tif"; "notes.txt"; "a.TIFF"]
    else None.

(** ASCII lower-casing, letter by letter. *)
Definition lower_ascii (c : ascii) : ascii :=
  let n := nat_of_ascii c in
  if ((65 <=? n) && (n <=? 90))%nat then ascii_of_nat (n + 32) else c.

Fixpoint lower (s : string) : string :=
  match s with
  | EmptyString => EmptyString
  | String c r => String (lower_ascii c) (lower r)
  end.

(** The specification's reading of the filter: the extension is [.tiff] or
    [.tif] whatever the case of its letters. *)
Definition spec_is_tiff (name : string) : bool :=
  ends_with ".tiff" (lower name) || ends_with ".tif" (lower name).

(** ** Coordinate lists as objects

    [adjust_coordinates] seen with its argument and its results as list
    objects: the two comprehensions and the returned rectangle are new
    lists. *)

Inductive pylist :=
  | Points (pts : list point)
  | Numbers (ns : list Q).

Abbreviation list_store := (list pylist) (only parsing).

Definition adjust_coordinates_in (ls : list_store) (coordinates : loc)
    (left_adjust right_adjust top_adjust bottom_adjust : Z)
    (image_width image_height : Z) : option (list_store * loc) :=
  obj ← ls !! coordinates;
  match obj with
  | Numbers _ => None
  | Points pts =>
      let ls1 := ls ++ [Numbers (map fst pts)] in
      let ls2 := ls1 ++ [Numbers (map snd pts)] in
      rect ← adjust_coordinates pts left_adjust right_adjust top_adjust
                bottom_adjust image_width image_height;
      Some (ls2 ++ [Points rect], length ls2)
  end.

(** ** Further definitions for the geometry *)

(** The first box contains the second, bound by bound. *)
Definition bbox_contains (outer inner : Q * Q * Q * Q) : Prop :=
  let '(min_x1, min_y1, max_x1, max_y1) := outer in
  let '(min_x2, min_y2, max_x2, max_y2) := inner in
  (min_x1 <= min_x2 /\ min_y1 <= min_y2 /\ max_x2 <= max_x1 /\ max_y2 <= max_y1)%Q.

(** ** Further definitions for edit tracking *)

(** A statement that marks an index as edited marks one that indexes a
    list of [n] entries ([-n <= idx < n]). *)
Definition op_in_range (n : nat) (op : edit_op) : Prop :=
  match op with
  | AddEdited idx => - Z.of_nat n <= idx < Z.of_nat n
  | _ => True
  end.

(** ** Further definitions for the overlay and the re-parse preview *)

(** The nine categories every palette of [COLOR_SCHEMES] lists, in order. *)
Definition categories : list string :=
  [ "Title"; "NarrativeText"; "ListItem"; "Table"; "Image"; "Header";
    "Footer"; "PageBreak"; "UncategorizedText" ].

(** [draw_box_comparison] ([src/visualizer.py], lines 145-195): the two
    outlines, then the two captions 20 pixels above the first vertex of
    each box; [None] is the [TypeError] of [draw.polygon] or the
    [IndexError] of [coords[0]] on an empty list. *)
Definition draw_box_comparison (original_coords adjusted_coords : list point)
    (box_width : Z) : option (list draw_op) :=
  if polygon_raises original_coords box_width then None
  else
    let overlay := [ Polygon original_coords (255, 0, 0, 180) box_width ] in
    if polygon_raises adjusted_coords (box_width + 1) then None
    else
      let overlay :=
        overlay ++ [ Polygon adjusted_coords (0, 255, 0, 180) (box_width + 1) ] in
      '(orig_x, orig_y) ← head original_coords;
      let overlay :=
        overlay ++ [LabelText (orig_x, (orig_y - inject_Z 20)%Q) "Original"
                              (255, 0, 0, 255)] in
      '(adj_x, adj_y) ← head adjusted_coords;
      let overlay :=
        overlay ++ [LabelText (adj_x, (adj_y - inject_Z 20)%Q) "Adjusted"
                              (0, 255, 0, 255)] in
      Some overlay.

(** What the "Re-parse Region" column computes before any button is
    pressed ([src/interactive_ui.py], lines 219-292 and 313-314). *)
Record preview := Preview {
  box_size : Z * Z;
  adjusted_coords : list point;
  new_size : Z * Z;
  preview_img : option (list draw_op)
}.

(** The outer [None] is an exception; the inner [None] is the branch
    "This element has no coordinates and cannot be re-parsed", taken when
    the coordinates are absent or empty. *)
Definition reparse_preview (elem : element)
    (left_adjust right_adjust top_adjust bottom_adjust : Z)
    (img_width img_height : Z) : option (option preview) :=
  match coordinates elem with
  | None | Some [] => Some None
  | Some coords =>
      size ← get_bounding_box_size coords;
      adjusted ← adjust_coordinates coords left_adjust right_adjust
                    top_adjust bottom_adjust img_width img_height;
      new_size ← get_bounding_box_size adjusted;
      img ← (if bool_decide (left_adjust <> 0 \/ right_adjust <> 0 \/
                               top_adjust <> 0 \/ bottom_adjust <> 0)
             then Some <$> draw_box_comparison coords adjusted 7
             else Some None);
      Some (Some {| box_size := size; adjusted_coords := adjusted;
                    new_size := new_size; preview_img := img |})
  end.

(** ** Parsing files ([src/parser.py], lines 30-103) *)

(** What [partition_image] gives for one element, as far as the code looks
    at it: [element.category], [str(element)], and the points of
    [element.metadata.coordinates] when there are coordinates. *)
Record raw_element := RawElement {
  category : string;
  raw_text : string;
  raw_points : option (list point)
}.

(** [d[key] = value] on a dictionary kept as an association list: an
    existing key keeps its place, a new key goes to the end. *)
Fixpoint dict_set {V} (d : list (string * V)) (key : string) (value : V)
    : list (string * V) :=
  match d with
  | [] => [(key, value)]
  | (k, v) :: rest =>
      if bool_decide (k = key) then (k, value) :: rest
      else (k, v) :: dict_set rest key value
  end.

(** The element dictionary built at lines 54-63. *)
Definition element_data (raw : raw_element) : element :=
  {| type := category raw;
     text := raw_text raw;
     coordinates := raw_points raw |}.

(** The loop of lines 53-66: every dictionary is a new object. *)
Fixpoint structure_loop (st : store) (elements : list raw_element)
    (parsed_elements : list loc) (full_text_parts : list string)
    : store * list loc * list string :=
  match elements with
  | [] => (st, parsed_elements, full_text_parts)
  | element :: rest =>
      structure_loop (st ++ [element_data element]) rest
        (parsed_elements ++ [length st])
        (full_text_parts ++ [raw_text element])
  end.

Definition blank_line : string := newline +:+ newline.

(** [partition_image] and [Path(p).name] belong to libraries: the first is
    given by what it returns for each path ([None] when it raises), the
    second as a function. *)
Definition parse_single_tiff (partition_image : string -> option (list raw_element))
    (path_name : string -> string) (st : store) (file_path : string)
    : option (store * file_data) :=
  elements ← partition_image file_path;
  let '(st', parsed_elements, full_text_parts) :=
    structure_loop st elements [] [] in
  Some (st', {| filename := path_name file_path;
                filepath := file_path;
                elements := parsed_elements;
                full_text := Py.join blank_line full_text_parts |}).

(** The loop of lines 94-101: a file whose parse raises is skipped. *)
Fixpoint parse_loop (partition_image : string -> option (list raw_element))
    (path_name : string -> string) (st : store) (tiff_files : list string)
    (results : list (string * file_data)) : store * list (string * file_data) :=
  match tiff_files with
  | [] => (st, results)
  | file_path :: rest =>
      match parse_single_tiff partition_image path_name st file_path with
      | Some (st', parsed_data) =>
          parse_loop partition_image path_name st' rest
            (dict_set results (filename parsed_data) parsed_data)
      | None => parse_loop partition_image path_name st rest results
      end
  end.

(** [inl] is the [FileNotFoundError] of the scan, which nothing catches. *)
Definition parse_all_tiffs (fs : filesystem)
    (partition_image : string -> option (list raw_element))
    (path_name : string -> string) (st : store) (folder_path : string)
    : string + (store * list (string * file_data)) :=
  match scan_data_folder fs folder_path with
  | inl err => inl err
  | inr tiff_files =>
      match tiff_files with
      | [] => inr (st, [])
      | _ => inr (parse_loop partition_image path_name st tiff_files [])
      end
  end.

(** ** Figures of the page ([src/interactive_ui.py], lines 113-117, 348) *)

(** The type counts: [element_types[t] = element_types.get(t, 0) + 1]. *)
Fixpoint count_types_loop (current_elements : list element)
    (element_types : list (string * Z)) : list (string * Z) :=
  match current_elements with
  | [] => element_types
  | elem :: rest =>
      let elem_type := type elem in
      count_types_loop rest
        (dict_set element_types elem_type (dict_get element_types elem_type 0 + 1))
  end.

Definition count_types (current_elements : list element) : list (string * Z) :=
  count_types_loop current_elements [].

(** The text offered for download. *)
Definition current_full_text (current_elements : list element) : string :=
  Py.join blank_line (map text current_elements).

(** A folder of three scans, the second of which cannot be parsed. *)
Definition sample_folder : filesystem :=
  fun path =>
    if String.eqb path "data" then Some ["c.tif"; "a.tif"; "b.tif"] else None.

Definition sample_partition (file_path : string) : option (list raw_element) :=
  if String.eqb file_path "data/b.tif" then None
  else Some [ {| category := "Title"; raw_text := "Report"; raw_points := None |};
              {| category := "Table"; raw_text := "a b";
                 raw_points := Some scenario_box |} ].

(** The last component of the three sample paths. *)
Definition sample_name (file_path : string) : string :=
  substring 5 (String.length file_path - 5) file_path.

(* ===================================================================== *)
(** * Properties *)
(* ===================================================================== *)

Example adjust_scenario_expand :
  adjust_coordinates scenario_box 10 10 0 0 400 300
  = Some [ (inject_Z 90, inject_Z 100); (inject_Z 310, inject_Z 100);
           (inject_Z 310, inject_Z 200); (inject_Z 90, inject_Z 200) ].
Proof. vm_compute. reflexivity. Qed.

(** ** Comparisons, [min] and [max] *)

Section PyMinMax.

Lemma Qltb_true (a b : Q) : Py.Qltb a b = true <-> (a < b)%Q.
Proof.
  unfold Py.Qltb. rewrite negb_true_iff.
  split.
  - intros Hf. apply Qnot_le_lt. intros Hle.
    apply Qle_bool_iff in Hle. congruence.
  - intros Hlt. destruct (Qle_bool b a) eqn:E; [|reflexivity].
    apply Qle_bool_iff in E. lra.
Qed.

Lemma Qltb_false (a b : Q) : Py.Qltb a b = false <-> (b <= a)%Q.
Proof.
  unfold Py.Qltb. rewrite negb_false_iff. apply Qle_bool_iff.
Qed.

Lemma fold_min2_le_init (rest : list Q) (x : Q) :
  (fold_left Py.min2 rest x <= x)%Q.
Proof.
  revert x. induction rest as [|y rest IH]; intros x; simpl; [lra|].
  specialize (IH (Py.min2 x y)). unfold Py.min2 in *.
  destruct (Py.Qltb y x) eqn:E.
  - apply Qltb_true in E. lra.
  - exact IH.
Qed.

Lemma fold_min2_lower (rest : list Q) (x y : Q) :
  In y rest -> (fold_left Py.min2 rest x <= y)%Q.
Proof.
  revert x. induction rest as [|z rest IH]; intros x; simpl; [tauto|].
  intros [->|Hin].
  - pose proof (fold_min2_le_init rest (Py.min2 x y)) as Hle.
    unfold Py.min2 in *. destruct (Py.Qltb y x) eqn:E; [exact Hle|].
    apply Qltb_false in E. lra.
  - apply IH, Hin.
Qed.

Lemma fold_min2_In (rest : list Q) (x : Q) :
  In (fold_left Py.min2 rest x) (x :: rest).
Proof.
  revert x. induction rest as [|z rest IH]; intros x; simpl; [tauto|].
  destruct (IH (Py.min2 x z)) as [Heq|Hin]; [|tauto].
  unfold Py.min2 in Heq at 1. rewrite <- Heq.
  destruct (Py.Qltb z x); tauto.
Qed.

Lemma fold_max2_ge_init (rest : list Q) (x : Q) :
  (x <= fold_left Py.max2 rest x)%Q.
Proof.
  revert x. induction rest as [|y rest IH]; intros x; simpl; [lra|].
  specialize (IH (Py.max2 x y)). unfold Py.max2 in *.
  destruct (Py.Qltb x y) eqn:E.
  - apply Qltb_true in E. lra.
  - exact IH.
Qed.

Lemma fold_max2_upper (rest : list Q) (x y : Q) :
  In y rest -> (y <= fold_left Py.max2 rest x)%Q.
Proof.
  revert x. induction rest as [|z rest IH]; intros x; simpl; [tauto|].
  intros [->|Hin].
  - pose proof (fold_max2_ge_init rest (Py.max2 x y)) as Hle.
    unfold Py.max2 in *. destruct (Py.Qltb x y) eqn:E; [exact Hle|].
    apply Qltb_false in E. lra.
  - apply IH, Hin.
Qed.

Lemma fold_max2_In (rest : list Q) (x : Q) :
  In (fold_left Py.max2 rest x) (x :: rest).
Proof.
  revert x. induction rest as [|z rest IH]; intros x; simpl; [tauto|].
  destruct (IH (Py.max2 x z)) as [Heq|Hin]; [|tauto].
  unfold Py.max2 in Heq at 1. rewrite <- Heq.
  destruct (Py.Qltb x z); tauto.
Qed.

(** [min(xs)] is an element of [xs] below all the others. *)
Lemma py_min_spec (xs : list Q) (m : Q) :
  Py.min xs = Some m -> In m xs /\ forall x, In x xs -> (m <= x)%Q.
Proof.
  destruct xs as [|x rest]; simpl; [discriminate|].
  intros [= <-]. split; [apply fold_min2_In|].
  intros y [<-|Hin]; [apply fold_min2_le_init | apply fold_min2_lower, Hin].
Qed.

(** [max(xs)] is an element of [xs] above all the others. *)
Lemma py_max_spec (xs : list Q) (m : Q) :
  Py.max xs = Some m -> In m xs /\ forall x, In x xs -> (x <= m)%Q.
Proof.
  destruct xs as [|x rest]; simpl; [discriminate|].
  intros [= <-]. split; [apply fold_max2_In|].
  intros y [<-|Hin]; [apply fold_max2_ge_init | apply fold_max2_upper, Hin].
Qed.

Lemma py_min_nonempty (xs : list Q) : xs <> [] -> exists m, Py.min xs = Some m.
Proof. destruct xs; [congruence|]. simpl. eauto. Qed.

Lemma py_max_nonempty (xs : list Q) : xs <> [] -> exists m, Py.max xs = Some m.
Proof. destruct xs; [congruence|]. simpl. eauto. Qed.

Lemma py_min_le_max (xs : list Q) (lo hi : Q) :
  Py.min xs = Some lo -> Py.max xs = Some hi -> (lo <= hi)%Q.
Proof.
  intros Hmin Hmax. apply py_min_spec in Hmin as [_ Hlow].
  apply py_max_spec in Hmax as [Hin _]. apply Hlow, Hin.
Qed.

End PyMinMax.

(** ** Box geometry *)

Ltac q_case :=
  match goal with
  | |- context [Py.Qltb ?a ?b] =>
      let E := fresh "E" in
      destruct (Py.Qltb a b) eqn:E;
      [apply Qltb_true in E | apply Qltb_false in E]
  | H : context [Py.Qltb ?a ?b] |- _ =>
      let E := fresh "E" in
      destruct (Py.Qltb a b) eqn:E;
      [apply Qltb_true in E | apply Qltb_false in E]
  end.

Lemma py_int_nonneg (q : Q) : (0 <= q)%Q -> 0 <= Py.int q.
Proof.
  destruct q as [n d]. unfold Qle, Py.int. simpl. intros Hq.
  apply Z.quot_pos; lia.
Qed.

(** On a non-empty list the four extrema exist and the result is the
    rectangle of the four adjusted bounds. *)
Lemma adjust_coordinates_some (P : list point) (l r t b W H : Z) :
  P <> [] ->
  exists min_x max_x min_y max_y,
    Py.min (map fst P) = Some min_x /\ Py.max (map fst P) = Some max_x /\
    Py.min (map snd P) = Some min_y /\ Py.max (map snd P) = Some max_y /\
    adjust_coordinates P l r t b W H =
      Some [ (Py.max2 (inject_Z 0) (min_x - inject_Z l)%Q,
              Py.max2 (inject_Z 0) (min_y - inject_Z t)%Q);
             (Py.min2 (inject_Z W) (max_x + inject_Z r)%Q,
              Py.max2 (inject_Z 0) (min_y - inject_Z t)%Q);
             (Py.min2 (inject_Z W) (max_x + inject_Z r)%Q,
              Py.min2 (inject_Z H) (max_y + inject_Z b)%Q);
             (Py.max2 (inject_Z 0) (min_x - inject_Z l)%Q,
              Py.min2 (inject_Z H) (max_y + inject_Z b)%Q) ].
Proof.
  intros HP. destruct P as [|p P]; [congruence|].
  unfold adjust_coordinates. simpl. do 4 eexists. repeat split; reflexivity.
Qed.

(** The extrema of the four corner abscissas (or ordinates) [a; b; b; a]. *)
Lemma corners_min (a b m : Q) :
  Py.min [a; b; b; a] = Some m ->
  (m <= a /\ m <= b /\ ((a <= b -> m == a) /\ (b <= a -> m == b)))%Q.
Proof.
  simpl. unfold Py.min2. intros [= <-].
  repeat q_case; repeat split; intros; lra.
Qed.

Lemma corners_max (a b m : Q) :
  Py.max [a; b; b; a] = Some m ->
  (a <= m /\ b <= m /\ ((a <= b -> m == b) /\ (b <= a -> m == a)))%Q.
Proof.
  simpl. unfold Py.max2. intros [= <-].
  repeat q_case; repeat split; intros; lra.
Qed.

(** The ordinates of the four corners come in the order [c; c; d; d]. *)
Lemma corners_min_y (c d m : Q) :
  Py.min [c; c; d; d] = Some m ->
  (m <= c /\ m <= d /\ ((c <= d -> m == c) /\ (d <= c -> m == d)))%Q.
Proof.
  simpl. unfold Py.min2. intros [= <-].
  repeat q_case; repeat split; intros; lra.
Qed.

Lemma corners_max_y (c d m : Q) :
  Py.max [c; c; d; d] = Some m ->
  (c <= m /\ d <= m /\ ((c <= d -> m == d) /\ (d <= c -> m == c)))%Q.
Proof.
  simpl. unfold Py.max2. intros [= <-].
  repeat q_case; repeat split; intros; lra.
Qed.

Lemma corners_bounding_box (a b c d : Q) :
  exists x0 y0 x1 y1,
    bounding_box [(a, c); (b, c); (b, d); (a, d)] = Some (x0, y0, x1, y1) /\
    Py.min [a; b; b; a] = Some x0 /\ Py.max [a; b; b; a] = Some x1 /\
    Py.min [c; c; d; d] = Some y0 /\ Py.max [c; c; d; d] = Some y1.
Proof. do 4 eexists. repeat split; reflexivity. Qed.

(** X1: what the one-sided guards of lines 96-99 do give: on a non-empty
    list the result is a rectangle whose low bounds never go below zero and
    whose high bounds never exceed the image. *)
Lemma adjust_coordinates_guards (P : list point) (l r t b W H : Z) :
  P <> [] ->
  exists x0 x1 y0 y1,
    adjust_coordinates P l r t b W H
      = Some [(x0, y0); (x1, y0); (x1, y1); (x0, y1)] /\
    (inject_Z 0 <= x0 /\ x1 <= inject_Z W /\
     inject_Z 0 <= y0 /\ y1 <= inject_Z H)%Q.
Proof.
  intros HP.
  destruct (adjust_coordinates_some P l r t b W H HP)
    as (min_x & max_x & min_y & max_y & _ & _ & _ & _ & ->).
  do 4 eexists. split; [reflexivity|].
  unfold Py.max2, Py.min2. repeat q_case; repeat split; lra.
Qed.

(** C1 (the code at the input where the claim breaks): contracting the left
    margin of the box [100..300] by 2000 pixels on a 400 x 300 image puts
    the left edge at x = 2100, beyond the image width, where the two-sided
    clamp of the specification gives 400. *)
Theorem adjust_coordinates_left_edge_beyond_width :
  adjust_coordinates scenario_box (-2000) 0 0 0 400 300
    = Some [ (inject_Z 2100, inject_Z 100); (inject_Z 300, inject_Z 100);
             (inject_Z 300, inject_Z 200); (inject_Z 2100, inject_Z 200) ]
  /\ ~ (inject_Z 2100 <= inject_Z 400)%Q
  /\ spec_clamp (inject_Z 100 - inject_Z (-2000))%Q (inject_Z 0) (inject_Z 400)
     = inject_Z 400.
Proof.
  split; [vm_compute; reflexivity|]. split.
  - unfold Qle. simpl. lia.
  - vm_compute. reflexivity.
Qed.

(** The size of any non-empty polygon exists and is non-negative on both
    axes: it is [max - min] of the same list. *)
Lemma get_bounding_box_size_nonneg (C : list point) :
  C <> [] ->
  exists w h, get_bounding_box_size C = Some (w, h) /\ 0 <= w /\ 0 <= h.
Proof.
  intros HC. unfold get_bounding_box_size.
  destruct (py_max_nonempty (map fst C)) as [Mx HMx]; [by destruct C|].
  destruct (py_min_nonempty (map fst C)) as [mx Hmx]; [by destruct C|].
  destruct (py_max_nonempty (map snd C)) as [My HMy]; [by destruct C|].
  destruct (py_min_nonempty (map snd C)) as [my Hmy]; [by destruct C|].
  rewrite HMx, Hmx, HMy, Hmy. simpl. do 2 eexists. split; [reflexivity|].
  pose proof (py_min_le_max _ _ _ Hmx HMx).
  pose proof (py_min_le_max _ _ _ Hmy HMy).
  split; apply py_int_nonneg; lra.
Qed.

(** C6: the size of an adjusted box is a pair of non-negative integers,
    whatever the adjustments and the image size. *)
Theorem adjusted_box_size_nonneg (P : list point) (l r t b W H : Z) :
  P <> [] ->
  exists R w h,
    adjust_coordinates P l r t b W H = Some R /\
    get_bounding_box_size R = Some (w, h) /\ 0 <= w /\ 0 <= h.
Proof.
  intros HP.
  destruct (adjust_coordinates_some P l r t b W H HP)
    as (min_x & max_x & min_y & max_y & _ & _ & _ & _ & ->).
  eexists.
  edestruct get_bounding_box_size_nonneg as (w & h & Hsz & Hw & Hh);
    [|exists w, h; split; [reflexivity|]; split; [exact Hsz|]; split; assumption].
  discriminate.
Qed.

Lemma adjusted_box_size_nonneg_witness :
  scenario_box <> [] /\
  exists R w h,
    adjust_coordinates scenario_box 0 (-500) 0 0 400 300 = Some R /\
    get_bounding_box_size R = Some (w, h) /\ 0 <= w /\ 0 <= h.
Proof.
  split; [discriminate|].
  apply (adjusted_box_size_nonneg scenario_box). discriminate.
Defined.

(** With all adjustments zero, a bound inside the image is returned as it
    is (up to [==]). *)
Lemma zero_adjust_low (v : Q) :
  (inject_Z 0 <= v)%Q -> (Py.max2 (inject_Z 0) (v - inject_Z 0) == v)%Q.
Proof.
  intros Hv. unfold Py.max2. q_case.
  - unfold inject_Z. ring.
  - unfold inject_Z in *. lra.
Qed.

Lemma zero_adjust_high (v : Q) (W : Z) :
  (v <= inject_Z W)%Q -> (Py.min2 (inject_Z W) (v + inject_Z 0) == v)%Q.
Proof.
  intros Hv. unfold Py.min2. q_case.
  - unfold inject_Z. ring.
  - unfold inject_Z in *. lra.
Qed.

Lemma in_map_fst_image (P : list point) (W H : Z) (x : Q) :
  (forall p, In p P -> in_image W H p) -> In x (map fst P) ->
  (inject_Z 0 <= x <= inject_Z W)%Q.
Proof.
  intros Hin Hx. apply in_map_iff in Hx as (p & <- & Hp).
  apply Hin in Hp. apply Hp.
Qed.

Lemma in_map_snd_image (P : list point) (W H : Z) (y : Q) :
  (forall p, In p P -> in_image W H p) -> In y (map snd P) ->
  (inject_Z 0 <= y <= inject_Z H)%Q.
Proof.
  intros Hin Hy. apply in_map_iff in Hy as (p & <- & Hp).
  apply Hin in Hp. apply Hp.
Qed.

(** C5 (as amended): with all four adjustments zero, the bounding box of
    the result equals the bounding box of [P] whenever every point of [P]
    lies on the image. *)
Theorem zero_adjust_keeps_bounding_box (P : list point) (W H : Z) :
  P <> [] ->
  (forall p, In p P -> in_image W H p) ->
  exists R bR bP,
    adjust_coordinates P 0 0 0 0 W H = Some R /\
    bounding_box R = Some bR /\
    bounding_box P = Some bP /\
    bbox_eq bR bP.
Proof.
  intros HP Himg.
  destruct (adjust_coordinates_some P 0 0 0 0 W H HP)
    as (min_x & max_x & min_y & max_y & Hmx & HMx & Hmy & HMy & ->).
  pose proof (py_min_le_max _ _ _ Hmx HMx) as Hx.
  pose proof (py_min_le_max _ _ _ Hmy HMy) as Hy.
  pose proof (in_map_fst_image P W H min_x Himg (proj1 (py_min_spec _ _ Hmx))) as Bmx.
  pose proof (in_map_fst_image P W H max_x Himg (proj1 (py_max_spec _ _ HMx))) as BMx.
  pose proof (in_map_snd_image P W H min_y Himg (proj1 (py_min_spec _ _ Hmy))) as Bmy.
  pose proof (in_map_snd_image P W H max_y Himg (proj1 (py_max_spec _ _ HMy))) as BMy.
  pose proof (zero_adjust_low min_x (proj1 Bmx)) as Ea.
  pose proof (zero_adjust_high max_x W (proj2 BMx)) as Eb.
  pose proof (zero_adjust_low min_y (proj1 Bmy)) as Ec.
  pose proof (zero_adjust_high max_y H (proj2 BMy)) as Ed.
  set (a := Py.max2 (inject_Z 0) (min_x - inject_Z 0)%Q) in *.
  set (b := Py.min2 (inject_Z W) (max_x + inject_Z 0)%Q) in *.
  set (c := Py.max2 (inject_Z 0) (min_y - inject_Z 0)%Q) in *.
  set (d := Py.min2 (inject_Z H) (max_y + inject_Z 0)%Q) in *.
  destruct (corners_bounding_box a b c d)
    as (x0 & y0 & x1 & y1 & Hbb & Hx0 & Hx1 & Hy0 & Hy1).
  exists [(a, c); (b, c); (b, d); (a, d)], (x0, y0, x1, y1),
         (min_x, min_y, max_x, max_y).
  split; [reflexivity|]. split; [exact Hbb|]. split.
  { unfold bounding_box. rewrite Hmx, Hmy, HMx, HMy. reflexivity. }
  apply corners_min in Hx0 as (_ & _ & Hx0 & _).
  apply corners_max in Hx1 as (_ & _ & Hx1 & _).
  apply corners_min_y in Hy0 as (_ & _ & Hy0 & _).
  apply corners_max_y in Hy1 as (_ & _ & Hy1 & _).
  assert (Hab : (a <= b)%Q) by lra.
  assert (Hcd : (c <= d)%Q) by lra.
  specialize (Hx0 Hab). specialize (Hx1 Hab).
  specialize (Hy0 Hcd). specialize (Hy1 Hcd).
  unfold bbox_eq. repeat split; lra.
Qed.

Lemma zero_adjust_keeps_bounding_box_witness :
  (scenario_box <> [] /\ forall p, In p scenario_box -> in_image 400 300 p) /\
  exists R bR bP,
    adjust_coordinates scenario_box 0 0 0 0 400 300 = Some R /\
    bounding_box R = Some bR /\
    bounding_box scenario_box = Some bP /\
    bbox_eq bR bP.
Proof.
  assert (Himg : forall p, In p scenario_box -> in_image 400 300 p).
  { intros p Hp. unfold scenario_box in Hp. simpl in Hp.
    unfold in_image, Qle.
    destruct Hp as [<-|[<-|[<-|[<-|[]]]]]; simpl; lia. }
  split; [split; [discriminate | exact Himg]|].
  apply (zero_adjust_keeps_bounding_box scenario_box 400 300);
    [discriminate | exact Himg].
Defined.

(** C5 (as stated, refuted): on a 400 x 300 image the polygon with corners
    (100,100) and (500,200) has bounding box x in [100, 500], and with all
    adjustments zero the result has bounding box x in [100, 400]. *)
Lemma zero_adjust_clamps_box_outside_image :
  ~ (forall (P : list point) (W H : Z),
       P <> [] -> 0 < W -> 0 < H ->
       forall R bR bP,
         adjust_coordinates P 0 0 0 0 W H = Some R ->
         bounding_box R = Some bR ->
         bounding_box P = Some bP ->
         bbox_eq bR bP).
Proof.
  intros Hclaim.
  specialize (Hclaim outside_box 400 300).
  specialize (Hclaim ltac:(discriminate) ltac:(lia) ltac:(lia)).
  specialize (Hclaim _ _ _ eq_refl eq_refl eq_refl).
  vm_compute in Hclaim. destruct Hclaim as (_ & _ & Hmax & _).
  discriminate Hmax.
Qed.

(** ** [adjust_coordinates] and the list objects *)

Lemma alloc3_old {A} (ls : list A) (x y z : A) (k : nat) (obj : A) :
  ls !! k = Some obj -> (((ls ++ [x]) ++ [y]) ++ [z]) !! k = Some obj.
Proof. intros Hk. rewrite <- !app_assoc. by apply lookup_app_l_Some. Qed.

Lemma alloc3_new {A} (ls : list A) (x y z : A) :
  (((ls ++ [x]) ++ [y]) ++ [z]) !! length ((ls ++ [x]) ++ [y]) = Some z.
Proof. by apply list_lookup_middle. Qed.

(** C10: the call reads its argument and writes only new objects: every
    list object that existed before the call, the argument and its points
    among them, is the same after it, and the rectangle returned is a list
    object that did not exist before, holding four points. *)
Theorem adjust_coordinates_leaves_input (ls : list_store) (c : loc)
    (pts : list point) (l r t b W H : Z) :
  ls !! c = Some (Points pts) ->
  pts <> [] ->
  exists ls' res rect,
    adjust_coordinates_in ls c l r t b W H = Some (ls', res) /\
    (forall k obj, ls !! k = Some obj -> ls' !! k = Some obj) /\
    ls' !! c = Some (Points pts) /\
    ls !! res = None /\
    res <> c /\
    ls' !! res = Some (Points rect) /\
    adjust_coordinates pts l r t b W H = Some rect /\
    length rect = 4%nat.
Proof.
  intros Hc Hpts.
  destruct (adjust_coordinates_some pts l r t b W H Hpts)
    as (min_x & max_x & min_y & max_y & _ & _ & _ & _ & Hadj).
  unfold adjust_coordinates_in. rewrite Hc. cbn [mbind option_bind].
  rewrite Hadj. cbn [mbind option_bind].
  do 3 eexists. split; [reflexivity|].
  pose proof (lookup_lt_Some _ _ _ Hc) as Hlt.
  split; [intros k obj; apply alloc3_old|].
  split; [by apply alloc3_old|].
  split; [apply lookup_ge_None_2; rewrite !length_app; simpl; lia|].
  split; [rewrite !length_app; simpl; lia|].
  split; [apply alloc3_new|].
  split; reflexivity.
Qed.

Lemma adjust_coordinates_leaves_input_witness :
  ([Points scenario_box] !! 0%nat = Some (Points scenario_box)
   /\ scenario_box <> []) /\
  exists ls' res rect,
    adjust_coordinates_in [Points scenario_box] 0%nat 10 10 0 0 400 300
      = Some (ls', res) /\
    (forall k obj, [Points scenario_box] !! k = Some obj -> ls' !! k = Some obj) /\
    ls' !! 0%nat = Some (Points scenario_box) /\
    [Points scenario_box] !! res = None /\
    res <> 0%nat /\
    ls' !! res = Some (Points rect) /\
    adjust_coordinates scenario_box 10 10 0 0 400 300 = Some rect /\
    length rect = 4%nat.
Proof.
  split; [split; [reflexivity | discriminate]|].
  apply (adjust_coordinates_leaves_input [Points scenario_box] 0%nat scenario_box);
    [reflexivity | discriminate].
Defined.

(** ** The store: reading lists and [deepcopy] *)

Lemma read_list_Forall2 (st : store) (ls : list loc) (vs : list element) :
  read_list st ls = Some vs <-> Forall2 (fun l v => st !! l = Some v) ls vs.
Proof. unfold read_list. apply mapM_Some. Qed.

(** Reading a list gives the same values in any store that agrees on its
    locations. *)
Lemma read_list_agree (st st' : store) (ls : list loc) :
  Forall (fun l => st' !! l = st !! l) ls -> read_list st' ls = read_list st ls.
Proof.
  unfold read_list. induction 1 as [|l ls Hl _ IH]; [reflexivity|].
  cbn. rewrite Hl, IH. reflexivity.
Qed.

Lemma read_list_app_store (st new : store) (ls : list loc) (vs : list element) :
  read_list st ls = Some vs -> read_list (st ++ new) ls = Some vs.
Proof.
  rewrite !read_list_Forall2. intros HF.
  eapply Forall2_impl; [exact HF|]. intros l v Hl. simpl in *.
  by apply lookup_app_l_Some.
Qed.

Lemma read_list_below (st : store) (ls : list loc) (vs : list element) :
  read_list st ls = Some vs -> Forall (fun l => (l < length st)%nat) ls.
Proof.
  rewrite read_list_Forall2. intros HF.
  eapply Forall2_Forall_l; [exact HF|].
  apply Forall_forall. intros v _ l Hl. eapply lookup_lt_Some, Hl.
Qed.

Lemma memo_ok_empty (st : store) (base : nat) : memo_ok st ∅ base.
Proof. intros l l' H. by rewrite lookup_empty in H. Qed.

Lemma memo_ok_alloc (st : store) (memo : gmap loc loc) (base : nat)
    (l : loc) (e : element) :
  (base <= length st)%nat -> st !! l = Some e -> memo_ok st memo base ->
  memo_ok (st ++ [e]) (<[l := length st]> memo) base.
Proof.
  intros Hbase Hl Hok k k' Hk.
  destruct (decide (l = k)) as [<-|Hne].
  - rewrite lookup_insert_eq in Hk. injection Hk as <-.
    split; [exact Hbase|]. exists e. split.
    + by apply lookup_app_l_Some.
    + by apply list_lookup_middle.
  - rewrite lookup_insert_ne in Hk by exact Hne.
    destruct (Hok k k' Hk) as (Hge & e' & Hk1 & Hk2).
    split; [exact Hge|]. exists e'. split; by apply lookup_app_l_Some.
Qed.

Lemma valid_refs_app (st new : store) (ls : list loc) :
  valid_refs st ls -> valid_refs (st ++ new) ls.
Proof.
  unfold valid_refs. intros Hv. eapply Forall_impl; [exact Hv|].
  intros l Hl. simpl in *. rewrite length_app. lia.
Qed.

Lemma read_list_app_store_inv (st new : store) (ls : list loc) :
  valid_refs st ls -> read_list (st ++ new) ls = read_list st ls.
Proof.
  intros Hv. apply read_list_agree. eapply Forall_impl; [exact Hv|].
  intros l Hl. simpl in *. by apply lookup_app_l.
Qed.

(** [deepcopy] of a list of valid references returns: the store has only
    grown, the output reads as the input does, and every output location
    is a copy made after [base]. *)
Lemma deepcopy_list_spec (ls : list loc) :
  forall (st : store) (memo : gmap loc loc) (base : nat),
    (base <= length st)%nat ->
    memo_ok st memo base ->
    valid_refs st ls ->
    exists new out vs,
      deepcopy_list st memo ls = Some (st ++ new, out) /\
      read_list st ls = Some vs /\
      read_list (st ++ new) out = Some vs /\
      Forall (fun l' => (base <= l')%nat) out.
Proof.
  induction ls as [|l ls IH]; intros st memo base Hbase Hok Hvalid.
  - exists [], [], []. rewrite app_nil_r. repeat split; constructor.
  - apply Forall_cons in Hvalid as [Hl Hvalid]. cbn [deepcopy_list].
    destruct (memo !! l) as [l'|] eqn:Hmemo.
    + destruct (IH st memo base Hbase Hok Hvalid)
        as (new & out & vs & -> & Hin & Hout & Hfresh).
      destruct (Hok l l' Hmemo) as (Hge & e & Hle & Hl').
      exists new, (l' :: out), (e :: vs). split; [reflexivity|].
      fold (valid_refs st ls) in Hvalid.
      rewrite !read_list_Forall2 in *.
      split; [by constructor|]. split; [|by constructor].
      constructor; [|exact Hout]. by apply lookup_app_l_Some.
    + destruct (lookup_lt_is_Some_2 st l Hl) as [e He].
      fold (valid_refs st ls) in Hvalid.
      assert (Hbase' : (base <= length (st ++ [e]))%nat)
        by (rewrite length_app; simpl; lia).
      destruct (IH (st ++ [e]) (<[l:=length st]> memo) base Hbase'
                  (memo_ok_alloc _ _ _ _ _ Hbase He Hok)
                  (valid_refs_app _ _ _ Hvalid))
        as (new & out & vs & Hcopy & Hin & Hout & Hfresh).
      rewrite read_list_app_store_inv in Hin by exact Hvalid.
      exists ([e] ++ new), (length st :: out), (e :: vs).
      rewrite app_assoc. split.
      { rewrite He. cbn [mbind option_bind]. rewrite Hcopy. reflexivity. }
      rewrite !read_list_Forall2 in *.
      split; [by constructor|]. split; [|by constructor].
      constructor; [|exact Hout].
      rewrite <- app_assoc. by apply list_lookup_middle.
Qed.

Lemma deepcopy_spec (st : store) (ls : list loc) :
  valid_refs st ls ->
  exists new out vs,
    deepcopy st ls = Some (st ++ new, out) /\
    read_list st ls = Some vs /\
    read_list (st ++ new) out = Some vs /\
    Forall (fun l' => (length st <= l')%nat) out.
Proof.
  intros Hv. apply deepcopy_list_spec; [lia | apply memo_ok_empty | exact Hv].
Qed.

(** ** Edit tracking *)

(** On a parse result whose references are valid, [initialize_edit_tracking]
    returns; [original] and [current] are two disjoint families of new
    objects, both reading as the parse result does. *)
Lemma initialize_edit_tracking_spec (st0 : store) (fd : file_data) :
  valid_refs st0 (elements fd) ->
  exists new1 new2 orig cur vs,
    initialize_edit_tracking st0 fd
      = Some ((st0 ++ new1) ++ new2,
              {| original := orig; current := cur; edited_indices := ∅ |}) /\
    read_list st0 (elements fd) = Some vs /\
    read_list ((st0 ++ new1) ++ new2) orig = Some vs /\
    read_list ((st0 ++ new1) ++ new2) cur = Some vs /\
    Forall (fun l => (l < length (st0 ++ new1))%nat) orig /\
    Forall (fun l => (length (st0 ++ new1) <= l)%nat) cur.
Proof.
  intros Hv. unfold initialize_edit_tracking.
  destruct (deepcopy_spec st0 (elements fd) Hv)
    as (new1 & orig & vs & Hc1 & Hin & Horig & _).
  destruct (deepcopy_spec (st0 ++ new1) (elements fd) (valid_refs_app _ _ _ Hv))
    as (new2 & cur & vs' & Hc2 & Hin' & Hcur & Hfresh).
  rewrite read_list_app_store_inv in Hin' by exact Hv.
  assert (vs' = vs) as -> by congruence.
  exists new1, new2, orig, cur, vs.
  rewrite Hc1. cbn [mbind option_bind]. rewrite Hc2. cbn [mbind option_bind].
  split; [reflexivity|]. split; [exact Hin|].
  split; [by apply read_list_app_store|]. split; [exact Hcur|].
  split; [by eapply read_list_below | exact Hfresh].
Qed.

Lemma getitem_elem_of {A} (l : list A) (i : Z) (x : A) :
  Py.getitem l i = Some x -> x ∈ l.
Proof.
  unfold Py.getitem. repeat case_bool_decide; try discriminate;
    intros Hx; eapply list_elem_of_lookup_2, Hx.
Qed.

(** Each of the three writes either does nothing or rewrites one object
    that the list refers to. *)
Lemma update_element_type_cases (st : store) (els : list loc) (idx : Z)
    (new_type : string) :
  update_element_type st els idx new_type = (st, els) \/
  exists l, l ∈ els /\
    update_element_type st els idx new_type = (alter (set_type new_type) l st, els).
Proof.
  unfold update_element_type. case_bool_decide; [|by left].
  destruct (els !! Z.to_nat idx) as [l|] eqn:Hl; [|by left].
  right. exists l. split; [by eapply list_elem_of_lookup_2|reflexivity].
Qed.

Lemma replace_element_with_reparsed_cases (st : store) (els : list loc)
    (idx : Z) (new_text : string) :
  replace_element_with_reparsed st els idx new_text = (st, els) \/
  exists l, l ∈ els /\
    replace_element_with_reparsed st els idx new_text
      = (alter (set_text new_text) l st, els).
Proof.
  unfold replace_element_with_reparsed. case_bool_decide; [|by left].
  destruct (els !! Z.to_nat idx) as [l|] eqn:Hl; [|by left].
  right. exists l. split; [by eapply list_elem_of_lookup_2|reflexivity].
Qed.

Lemma setitem_coordinates_cases (st st' : store) (els : list loc) (idx : Z)
    (coords : list point) :
  setitem_coordinates st els idx coords = Some st' ->
  exists l, l ∈ els /\ st' = alter (set_coordinates coords) l st.
Proof.
  unfold setitem_coordinates.
  destruct (Py.getitem els idx) as [l|] eqn:Hl; [|discriminate].
  cbn. intros [= <-]. exists l. split; [by eapply getitem_elem_of|reflexivity].
Qed.

Lemma descends_refl (s1 : session) (mid : nat) : descends s1 mid s1.
Proof. unfold descends. repeat split; set_solver. Qed.

(** A write to an object of [current] keeps the session a descendant. *)
Lemma descends_write (s1 : session) (mid : nat) (st : store)
    (et : edit_tracking) (f : element -> element) (l : loc) :
  Forall (fun l => (mid <= l)%nat) (current (snd s1)) ->
  descends s1 mid (st, et) ->
  l ∈ current et ->
  descends s1 mid
    (alter f l st, {| original := original et; current := current et;
                      edited_indices := edited_indices et |}).
Proof.
  intros Hcur (Ho & Hc & He & Hlen & Hlow) Hl. simpl in *.
  unfold descends. simpl. repeat split; try assumption.
  - by rewrite length_alter.
  - intros k Hk. rewrite <- Hlow by exact Hk.
    apply list_lookup_alter_ne.
    rewrite Hc in Hl. rewrite Forall_forall in Hcur.
    specialize (Hcur l Hl). lia.
Qed.

Lemma descends_same_record (s1 : session) (mid : nat) (st : store)
    (et : edit_tracking) :
  descends s1 mid (st, et) ->
  descends s1 mid
    (st, {| original := original et; current := current et;
            edited_indices := edited_indices et |}).
Proof. by destruct et. Qed.

Lemma descends_exec_op (s1 s : session) (mid : nat) (op : edit_op) :
  Forall (fun l => (mid <= l)%nat) (current (snd s1)) ->
  descends s1 mid s ->
  descends s1 mid (exec_op s op).
Proof.
  intros Hcur Hd. destruct s as [st et]. unfold exec_op.
  destruct op as [idx ty|idx txt|idx coords|idx|]; cbn [apply_op].
  - destruct (update_element_type_cases st (current et) idx ty)
      as [->|(l & Hl & ->)]; cbn.
    + by apply descends_same_record.
    + by apply descends_write.
  - destruct (replace_element_with_reparsed_cases st (current et) idx txt)
      as [->|(l & Hl & ->)]; cbn.
    + by apply descends_same_record.
    + by apply descends_write.
  - destruct (setitem_coordinates st (current et) idx coords) as [st'|] eqn:Hset;
      cbn; [|exact Hd].
    apply setitem_coordinates_cases in Hset as (l & Hl & ->).
    pose proof (descends_write s1 mid st et (set_coordinates coords) l Hcur Hd Hl)
      as Hw.
    by destruct et.
  - cbn. destruct Hd as (Ho & Hc & He & Hlen & Hlow). simpl in *.
    unfold descends. simpl. repeat split; try assumption. set_solver.
  - destruct (get_edit_summary st et); cbn; exact Hd.
Qed.

Lemma descends_run_ops (s1 : session) (mid : nat) (ops : list edit_op) :
  Forall (fun l => (mid <= l)%nat) (current (snd s1)) ->
  forall s, descends s1 mid s -> descends s1 mid (run_ops s ops).
Proof.
  intros Hcur. unfold run_ops.
  induction ops as [|op ops IH]; intros s Hd; [exact Hd|].
  simpl. apply IH. by apply descends_exec_op.
Qed.

(** The two handlers of the page are sequences of edit statements. *)
Lemma on_update_type_as_ops (s : session) (element_to_edit : Z) (new_type : string) :
  on_update_type s element_to_edit new_type
  = run_ops s [UpdateType (element_to_edit - 1) new_type;
               AddEdited (element_to_edit - 1)].
Proof.
  destruct s as [st et]. unfold on_update_type, run_ops, exec_op. simpl.
  destruct (update_element_type st (current et) (element_to_edit - 1) new_type).
  reflexivity.
Qed.

Lemma on_reparse_as_ops (s : session) (element_to_reparse : Z)
    (parsed : option string) (adjusted_coords : list point) :
  exists ops, on_reparse s element_to_reparse parsed adjusted_coords = run_ops s ops.
Proof.
  destruct s as [st et]. unfold on_reparse.
  destruct parsed as [new_text|]; [|by exists []].
  set (idx := element_to_reparse - 1).
  destruct (replace_element_with_reparsed st (current et) idx new_text)
    as [st1 cur] eqn:Hrep.
  destruct (setitem_coordinates st1 cur idx adjusted_coords) as [st2|] eqn:Hset.
  - exists [ReplaceText idx new_text; SetCoordinates idx adjusted_coords;
            AddEdited idx].
    unfold run_ops, exec_op. simpl. rewrite Hrep. simpl. rewrite Hset. reflexivity.
  - exists [ReplaceText idx new_text].
    unfold run_ops, exec_op. simpl. rewrite Hrep. reflexivity.
Qed.

(** After any run of edit statements on a record made by
    [initialize_edit_tracking]: the session descends from the initial one,
    and the parse result and [original] still read as the parse result did
    at the start. *)
Lemma run_ops_frame (st0 : store) (fd : file_data) (s1 : session)
    (ops : list edit_op) :
  valid_refs st0 (elements fd) ->
  initialize_edit_tracking st0 fd = Some s1 ->
  exists mid vs,
    descends s1 mid (run_ops s1 ops) /\
    (length st0 <= mid)%nat /\
    (mid <= length (fst s1))%nat /\
    Forall (fun l => (l < mid)%nat) (original (snd s1)) /\
    Forall (fun l => (mid <= l)%nat) (current (snd s1)) /\
    read_list st0 (elements fd) = Some vs /\
    read_list (fst (run_ops s1 ops)) (elements fd) = Some vs /\
    read_list (fst (run_ops s1 ops)) (original (snd s1)) = Some vs.
Proof.
  intros Hv Hinit.
  destruct (initialize_edit_tracking_spec st0 fd Hv)
    as (new1 & new2 & orig & cur & vs & Hinit' & Hin & Horig & Hcur & Hlo & Hhi).
  rewrite Hinit in Hinit'. injection Hinit' as ->.
  exists (length (st0 ++ new1)), vs. cbn [fst snd original current].
  pose proof (descends_run_ops
    ((st0 ++ new1) ++ new2,
     {| original := orig; current := cur; edited_indices := ∅ |})
    (length (st0 ++ new1)) ops Hhi _ (descends_refl _ _)) as Hd.
  split; [exact Hd|].
  destruct Hd as (_ & _ & _ & _ & Hlow). cbn [fst snd] in Hlow.
  split; [rewrite length_app; lia|].
  split; [rewrite (length_app (st0 ++ new1)); lia|].
  split; [exact Hlo|]. split; [exact Hhi|]. split; [exact Hin|]. split.
  - rewrite <- Hin. rewrite <- (read_list_app_store_inv st0 new1) by exact Hv.
    rewrite <- (read_list_app_store_inv (st0 ++ new1) new2)
      by (by apply valid_refs_app).
    apply read_list_agree. eapply Forall_impl; [exact Hv|].
    intros l Hl. simpl in *. apply Hlow. rewrite length_app. lia.
  - rewrite <- Horig. apply read_list_agree.
    eapply Forall_impl; [exact Hlo|]. intros l Hl. simpl in *. by apply Hlow.
Qed.

(** C2: after any sequence of edit statements (relabels, text replacements,
    coordinate overwrites, additions to [edited_indices]) on a record made
    by [initialize_edit_tracking], running [initialize_edit_tracking] again
    on the same parse result returns a record whose [current] reads,
    element by element, as the [original] of the edited record, with no
    edited index. *)
Theorem reset_restores_original (st0 : store) (fd : file_data) (s1 : session)
    (ops : list edit_op) :
  valid_refs st0 (elements fd) ->
  initialize_edit_tracking st0 fd = Some s1 ->
  exists s2 vs,
    initialize_edit_tracking (fst (run_ops s1 ops)) fd = Some s2 /\
    read_list (fst s2) (current (snd s2)) = Some vs /\
    read_list (fst s2) (original (snd (run_ops s1 ops))) = Some vs /\
    edited_indices (snd s2) = ∅.
Proof.
  intros Hv Hinit.
  destruct (run_ops_frame st0 fd s1 ops Hv Hinit)
    as (mid & vs & Hd & Hmid & Hmid' & Hlo & Hhi & Hin & Hfd & Horig).
  destruct Hd as (Ho & _ & _ & Hlen & _).
  set (s := run_ops s1 ops) in *.
  assert (Hv' : valid_refs (fst s) (elements fd)).
  { eapply Forall_impl; [exact Hv|]. intros l Hl. simpl in *. lia. }
  destruct (initialize_edit_tracking_spec (fst s) fd Hv')
    as (new1 & new2 & orig2 & cur2 & vs2 & Hinit2 & Hin2 & _ & Hcur2 & _).
  assert (vs2 = vs) as -> by congruence.
  eexists _, vs. split; [exact Hinit2|]. cbn [fst snd current edited_indices].
  split; [exact Hcur2|]. split; [|reflexivity].
  rewrite Ho. by do 2 apply read_list_app_store.
Qed.

Lemma reset_restores_original_witness :
  (valid_refs sample_store (elements sample_file) /\
   initialize_edit_tracking sample_store sample_file
   = Some sample_session) /\
  exists s2 vs,
    initialize_edit_tracking
      (fst (run_ops sample_session sample_edits))
      sample_file = Some s2 /\
    read_list (fst s2) (current (snd s2)) = Some vs /\
    read_list (fst s2)
      (original (snd (run_ops sample_session sample_edits))) = Some vs /\
    edited_indices (snd s2) = ∅.
Proof.
  assert (Hv : valid_refs sample_store (elements sample_file)).
  { repeat constructor. }
  split; [split; [exact Hv | reflexivity]|].
  apply (reset_restores_original sample_store sample_file); [exact Hv | reflexivity].
Defined.

(** C3: on a record made by [initialize_edit_tracking], after any run of
    edit statements, one more statement (a relabel, a text replacement, a
    coordinate overwrite, an addition to [edited_indices] or a summary)
    leaves [original] the same list of the same values, which are those of
    the parse result, and removes no member of [edited_indices]. *)
Theorem original_never_mutated (st0 : store) (fd : file_data) (s1 : session)
    (ops : list edit_op) (op : edit_op) :
  valid_refs st0 (elements fd) ->
  initialize_edit_tracking st0 fd = Some s1 ->
  exists vs,
    read_list st0 (elements fd) = Some vs /\
    read_list (fst (run_ops s1 ops)) (original (snd (run_ops s1 ops))) = Some vs /\
    original (snd (exec_op (run_ops s1 ops) op)) = original (snd (run_ops s1 ops)) /\
    read_list (fst (exec_op (run_ops s1 ops) op))
              (original (snd (exec_op (run_ops s1 ops) op))) = Some vs /\
    edited_indices (snd (run_ops s1 ops))
      ⊆ edited_indices (snd (exec_op (run_ops s1 ops) op)).
Proof.
  intros Hv Hinit.
  destruct (run_ops_frame st0 fd s1 ops Hv Hinit)
    as (mid & vs & Hd & _ & _ & Hlo & Hhi & Hin & _ & Horig).
  destruct (run_ops_frame st0 fd s1 (ops ++ [op]) Hv Hinit)
    as (mid' & vs' & Hd' & _ & _ & _ & _ & Hin' & _ & Horig').
  assert (vs' = vs) as -> by congruence.
  assert (Hstep : run_ops s1 (ops ++ [op]) = exec_op (run_ops s1 ops) op).
  { unfold run_ops. by rewrite fold_left_app. }
  rewrite Hstep in *.
  set (s := run_ops s1 ops) in *.
  destruct Hd as (Ho & Hc & _ & _ & _).
  assert (Hhi' : Forall (fun l => (mid <= l)%nat) (current (snd s)))
    by (by rewrite Hc).
  pose proof (descends_exec_op s s mid op Hhi' (descends_refl _ _))
    as (Ho2 & _ & He2 & _ & _).
  exists vs. split; [exact Hin|]. rewrite Ho2, Ho.
  split; [exact Horig|]. split; [reflexivity|]. split; [exact Horig'|exact He2].
Qed.

Lemma original_never_mutated_witness :
  (valid_refs sample_store (elements sample_file) /\
   initialize_edit_tracking sample_store sample_file
   = Some sample_session) /\
  exists vs,
    read_list sample_store (elements sample_file) = Some vs /\
    read_list
      (fst (run_ops sample_session sample_relabel))
      (original (snd (run_ops sample_session sample_relabel))) = Some vs /\
    original (snd (exec_op
      (run_ops sample_session sample_relabel)
      (ReplaceText 1 "c d")))
    = original (snd (run_ops sample_session sample_relabel)) /\
    read_list
      (fst (exec_op
        (run_ops sample_session sample_relabel)
        (ReplaceText 1 "c d")))
      (original (snd (exec_op
        (run_ops sample_session sample_relabel)
        (ReplaceText 1 "c d")))) = Some vs /\
    edited_indices (snd (run_ops sample_session sample_relabel))
      ⊆ edited_indices (snd (exec_op
        (run_ops sample_session sample_relabel)
        (ReplaceText 1 "c d"))).
Proof.
  assert (Hv : valid_refs sample_store (elements sample_file)).
  { repeat constructor. }
  split; [split; [exact Hv | reflexivity]|].
  apply (original_never_mutated sample_store sample_file); [exact Hv | reflexivity].
Defined.

(** C4: outside [0, len) neither function changes anything, and both return
    their list; inside, the one object the index refers to gets the new
    ['type'] (the new ['text']) with its other fields kept, no other object
    of the store changes, and, the references of the list being distinct,
    no other entry of the list does. *)
Theorem relabel_replace_bounds (st : store) (els : list loc) (idx : Z)
    (new_type new_text : string) :
  (~ (0 <= idx < Z.of_nat (length els)) ->
     update_element_type st els idx new_type = (st, els) /\
     replace_element_with_reparsed st els idx new_text = (st, els))
  /\
  (0 <= idx < Z.of_nat (length els) ->
     exists l,
       els !! Z.to_nat idx = Some l /\
       update_element_type st els idx new_type
         = (alter (set_type new_type) l st, els) /\
       replace_element_with_reparsed st els idx new_text
         = (alter (set_text new_text) l st, els) /\
       (forall e, st !! l = Some e ->
          alter (set_type new_type) l st !! l
            = Some {| type := new_type; text := text e;
                      coordinates := coordinates e |} /\
          alter (set_text new_text) l st !! l
            = Some {| type := type e; text := new_text;
                      coordinates := coordinates e |}) /\
       (forall k, k <> l ->
          alter (set_type new_type) l st !! k = st !! k /\
          alter (set_text new_text) l st !! k = st !! k) /\
       (NoDup els -> forall j k, j <> Z.to_nat idx -> els !! j = Some k ->
          alter (set_type new_type) l st !! k = st !! k /\
          alter (set_text new_text) l st !! k = st !! k)).
Proof.
  split.
  - intros Hout. unfold update_element_type, replace_element_with_reparsed.
    rewrite !bool_decide_eq_false_2 by exact Hout. split; reflexivity.
  - intros Hin.
    destruct (lookup_lt_is_Some_2 els (Z.to_nat idx)) as [l Hl]; [lia|].
    exists l. unfold update_element_type, replace_element_with_reparsed.
    rewrite !bool_decide_eq_true_2 by exact Hin. rewrite Hl.
    split; [reflexivity|]. split; [reflexivity|]. split; [reflexivity|].
    assert (Hother : forall k, k <> l ->
              alter (set_type new_type) l st !! k = st !! k /\
              alter (set_text new_text) l st !! k = st !! k).
    { intros k Hk. split; apply list_lookup_alter_ne; congruence. }
    split; [|split; [exact Hother|]].
    + intros e He. rewrite !list_lookup_alter_eq, He. split; reflexivity.
    + intros Hnd j k Hj Hk. apply Hother. intros ->.
      apply Hj. eapply NoDup_lookup; eauto.
Qed.

Lemma relabel_replace_bounds_witness :
  update_element_type sample_store [0%nat; 1%nat] 2 "Header"
    = (sample_store, [0%nat; 1%nat]) /\
  replace_element_with_reparsed sample_store [0%nat; 1%nat] (-1) "x"
    = (sample_store, [0%nat; 1%nat]) /\
  exists l,
    [0%nat; 1%nat] !! Z.to_nat 1 = Some l /\
    update_element_type sample_store [0%nat; 1%nat] 1 "Header"
      = (alter (set_type "Header") l sample_store, [0%nat; 1%nat]).
Proof.
  split; [|split].
  - apply (proj1 (relabel_replace_bounds sample_store [0%nat; 1%nat] 2 "Header" "x")).
    simpl. lia.
  - apply (proj1 (relabel_replace_bounds sample_store [0%nat; 1%nat] (-1) "Header" "x")).
    simpl. lia.
  - destruct (proj2 (relabel_replace_bounds sample_store [0%nat; 1%nat] 1 "Header" "x"))
      as (l & Hl & Hup & _); [simpl; lia|].
    exists l. split; [exact Hl | exact Hup].
Defined.

(** ** The edit summary *)

Lemma count_newlines_app (a b : string) :
  count_newlines (a +:+ b) = (count_newlines a + count_newlines b)%nat.
Proof. induction a as [|c a IH]; simpl; [reflexivity|]. rewrite IH. lia. Qed.

Lemma count_newlines_uint (d : Decimal.uint) :
  count_newlines (NilEmpty.string_of_uint d) = 0%nat.
Proof. induction d; simpl; assumption || reflexivity. Qed.

(** The decimal writing of an integer has no line break. *)
Lemma count_newlines_str (n : Z) : count_newlines (Py.str n) = 0%nat.
Proof.
  unfold Py.str, NilZero.string_of_int, NilZero.string_of_uint.
  destruct (Z.to_int n) as [d|d]; destruct d; simpl;
    try reflexivity; apply count_newlines_uint.
Qed.

Lemma getitem_in_range {A} (l : list A) (i : Z) (x : A) :
  0 <= i -> l !! Z.to_nat i = Some x -> Py.getitem l i = Some x.
Proof.
  intros Hi Hx. unfold Py.getitem.
  pose proof (lookup_lt_Some _ _ _ Hx).
  rewrite bool_decide_eq_true_2 by lia. exact Hx.
Qed.

Lemma read_list_lookup (st : store) (ls : list loc) (vs : list element)
    (n : nat) (v : element) :
  read_list st ls = Some vs -> vs !! n = Some v ->
  exists l, ls !! n = Some l /\ st !! l = Some v.
Proof.
  rewrite read_list_Forall2. intros HF Hv.
  destruct (Forall2_lookup_r _ _ _ _ _ HF Hv) as (l & Hl & Hst). eauto.
Qed.

Lemma read_list_lookup_l (st : store) (ls : list loc) (vs : list element)
    (n : nat) (l : loc) (e : element) :
  read_list st ls = Some vs -> ls !! n = Some l -> st !! l = Some e ->
  vs !! n = Some e.
Proof.
  rewrite read_list_Forall2. intros HF Hl He.
  destruct (Forall2_lookup_l _ _ _ _ _ HF Hl) as (v & Hv & Hst).
  simpl in Hst. congruence.
Qed.

Lemma sorted_indices_singleton (i : Z) : sorted_indices ({[i]} ∪ ∅) = [i].
Proof.
  unfold sorted_indices. rewrite union_empty_r_L, elements_singleton.
  reflexivity.
Qed.

(** The summary after "Update Type" on element number [i + 1] of a record
    just made by [initialize_edit_tracking]. *)
Lemma summary_after_relabel (st0 : store) (fd : file_data) (s1 : session)
    (i : Z) (l : loc) (e : element) (B : string) :
  valid_refs st0 (elements fd) ->
  initialize_edit_tracking st0 fd = Some s1 ->
  0 <= i ->
  elements fd !! Z.to_nat i = Some l ->
  st0 !! l = Some e ->
  get_edit_summary (fst (on_update_type s1 (i + 1) B))
                   (snd (on_update_type s1 (i + 1) B))
  = Some (Py.join newline
      match element_changes e (set_type B e) with
      | [] => []
      | changes =>
          ["Element " +:+ Py.str (i + 1) +:+ ": " +:+ Py.join ", " changes]
      end).
Proof.
  intros Hv Hinit Hi Hl He.
  destruct (initialize_edit_tracking_spec st0 fd Hv)
    as (new1 & new2 & orig & cur & vs & Hinit' & Hin & Horig & Hcur & Hlo & Hhi).
  rewrite Hinit in Hinit'. injection Hinit' as ->.
  pose proof (read_list_lookup_l _ _ _ _ _ _ Hin Hl He) as Hv_i.
  destruct (read_list_lookup _ _ _ _ _ Horig Hv_i) as (lo & Hlo_i & Hlo_v).
  destruct (read_list_lookup _ _ _ _ _ Hcur Hv_i) as (lc & Hlc_i & Hlc_v).
  assert (Hne : lc <> lo).
  { rewrite Forall_forall in Hlo, Hhi.
    pose proof (Hlo lo (list_elem_of_lookup_2 _ _ _ Hlo_i)).
    pose proof (Hhi lc (list_elem_of_lookup_2 _ _ _ Hlc_i)). lia. }
  unfold on_update_type. replace (i + 1 - 1) with i by lia.
  cbn [current]. unfold update_element_type.
  pose proof (lookup_lt_Some _ _ _ Hlc_i) as Hlen.
  rewrite bool_decide_eq_true_2 by lia. rewrite Hlc_i. cbn [fst snd].
  unfold get_edit_summary. cbn [edited_indices].
  rewrite bool_decide_eq_false_2 by set_solver.
  rewrite sorted_indices_singleton. cbn [summary_loop original current].
  rewrite (getitem_in_range _ _ _ Hi Hlo_i). cbn [mbind option_bind].
  rewrite list_lookup_alter_ne by exact Hne. rewrite Hlo_v.
  cbn [mbind option_bind].
  rewrite (getitem_in_range _ _ _ Hi Hlc_i). cbn [mbind option_bind].
  rewrite list_lookup_alter_eq, Hlc_v. cbn [fmap option_fmap option_map mbind option_bind].
  destruct (element_changes e (set_type B e)); reflexivity.
Qed.

(** C7 (as amended): with no edited index the summary is the sentinel
    "No edits made"; after one relabel of element [i] of a fresh record from
    type [A] to a different type [B], the summary is exactly the text
    "Element i+1: Type: A → B", a single line when neither label contains a
    line break. *)
Theorem summary_of_single_relabel :
  (forall (st : store) (et : edit_tracking),
     edited_indices et = ∅ -> get_edit_summary st et = Some "No edits made")
  /\
  (forall (st0 : store) (fd : file_data) (s1 : session) (i : Z) (l : loc)
          (e : element) (B : string),
     valid_refs st0 (elements fd) ->
     initialize_edit_tracking st0 fd = Some s1 ->
     0 <= i ->
     elements fd !! Z.to_nat i = Some l ->
     st0 !! l = Some e ->
     type e <> B ->
     get_edit_summary (fst (on_update_type s1 (i + 1) B))
                      (snd (on_update_type s1 (i + 1) B))
     = Some ("Element " +:+ Py.str (i + 1) +:+ ": Type: " +:+ type e
             +:+ " → " +:+ B)
     /\ (count_newlines (type e) = 0%nat -> count_newlines B = 0%nat ->
         line_count ("Element " +:+ Py.str (i + 1) +:+ ": Type: " +:+ type e
                     +:+ " → " +:+ B) = 1%nat)).
Proof.
  split.
  - intros st et Hempty. unfold get_edit_summary.
    by rewrite bool_decide_eq_true_2.
  - intros st0 fd s1 i l e B Hv Hinit Hi Hl He Hne. split.
    + rewrite (summary_after_relabel st0 fd s1 i l e B Hv Hinit Hi Hl He).
      unfold element_changes. cbn [type text set_type].
      rewrite (bool_decide_eq_true_2 (type e <> B)) by exact Hne.
      rewrite (bool_decide_eq_false_2 (text e <> text e)) by (intros H; by apply H).
      reflexivity.
    + intros HA HB. unfold line_count.
      rewrite !count_newlines_app, count_newlines_str, HA, HB. reflexivity.
Qed.

Lemma summary_of_single_relabel_witness :
  get_edit_summary sample_store
    {| original := [0%nat]; current := [1%nat]; edited_indices := ∅ |}
    = Some "No edits made"
  /\ get_edit_summary (fst (on_update_type sample_session (0 + 1) "Header"))
                      (snd (on_update_type sample_session (0 + 1) "Header"))
     = Some ("Element " +:+ Py.str (0 + 1) +:+ ": Type: " +:+ "Title"
             +:+ " → " +:+ "Header").
Proof.
  split.
  - apply (proj1 summary_of_single_relabel). reflexivity.
  - apply (proj2 summary_of_single_relabel sample_store sample_file sample_session
             0 0%nat {| type := "Title"; text := "Report"; coordinates := None |}
             "Header").
    + repeat constructor.
    + reflexivity.
    + lia.
    + reflexivity.
    + reflexivity.
    + discriminate.
Defined.

(** C7 (as stated, refuted): relabelling element 1 from "Title" to "Title"
    marks index 0 as edited, and the summary is then the empty text: it
    does not mention element 1 and does not contain "Title → Title". *)
Lemma summary_of_relabel_to_same_type :
  edited_indices (snd (on_update_type sample_session 1 "Title")) = {[0]}
  /\ get_edit_summary (fst (on_update_type sample_session 1 "Title"))
                      (snd (on_update_type sample_session 1 "Title"))
     = Some ""
  /\ String.index 0 "Title → Title" "" = None.
Proof.
  split; [|split].
  - apply set_eq. intros x. unfold on_update_type. simpl. set_solver.
  - vm_compute. reflexivity.
  - reflexivity.
Qed.

(** ** The text view and the overlay *)

Lemma text_loop_acc (sn : bool) (els : list element) :
  forall (idx : Z) (acc : list string),
    text_loop sn idx els acc = acc ++ text_loop sn idx els [].
Proof.
  induction els as [|e els IH]; intros idx acc; cbn [text_loop].
  - by rewrite app_nil_r.
  - rewrite IH. rewrite (IH _ (_ ++ [Py.repeat_str "-" 50])).
    destruct sn; by rewrite <- !app_assoc.
Qed.

Lemma text_loop_cons (sn : bool) (idx : Z) (e : element) (els : list element) :
  text_loop sn idx (e :: els) []
  = [header_line sn idx e; text e; separator_line]
      ++ text_loop sn (idx + 1) els [].
Proof.
  cbn [text_loop]. rewrite text_loop_acc. unfold header_line.
  destruct sn; reflexivity.
Qed.

Lemma text_loop_length (sn : bool) (els : list element) (idx : Z) :
  length (text_loop sn idx els []) = (3 * length els)%nat.
Proof.
  revert idx. induction els as [|e els IH]; intros idx; [reflexivity|].
  rewrite text_loop_cons, length_app, IH. simpl. lia.
Qed.

(** The three parts of the element at position [i] sit at positions
    [3i], [3i+1] and [3i+2], and the header carries the ordinal [idx + i]. *)
Lemma text_loop_lookup (sn : bool) (els : list element) :
  forall (idx : Z) (i : nat) (e : element),
    els !! i = Some e ->
    text_loop sn idx els [] !! (3 * i)%nat
      = Some (header_line sn (idx + Z.of_nat i) e) /\
    text_loop sn idx els [] !! (3 * i + 1)%nat = Some (text e) /\
    text_loop sn idx els [] !! (3 * i + 2)%nat = Some separator_line.
Proof.
  induction els as [|e0 els IH]; intros idx i e He; [discriminate|].
  rewrite text_loop_cons. destruct i as [|i].
  - injection He as ->. replace (idx + Z.of_nat 0) with idx by lia.
    repeat split; reflexivity.
  - simpl in He. destruct (IH (idx + 1) i e He) as (H0 & H1 & H2).
    replace (idx + Z.of_nat (S i)) with (idx + 1 + Z.of_nat i) by lia.
    replace (3 * S i)%nat with (3 + 3 * i)%nat by lia.
    replace (3 + 3 * i + 1)%nat with (3 + (3 * i + 1))%nat by lia.
    replace (3 + 3 * i + 2)%nat with (3 + (3 * i + 2))%nat by lia.
    repeat split; assumption.
Qed.

Lemma draw_loop_acc (colors : list (string * rgb)) (bw : Z) (tr : Q)
    (sn : bool) (els : list element) :
  forall (idx : Z) (acc : list draw_op),
    draw_loop colors bw tr sn idx els acc
    = (fun ops => acc ++ ops) <$> draw_loop colors bw tr sn idx els [].
Proof.
  induction els as [|e els IH]; intros idx acc; cbn [draw_loop].
  - cbn. by rewrite app_nil_r.
  - destruct (draw_element colors bw tr sn idx e) as [ops|];
      cbn [mbind option_bind]; [|reflexivity].
    rewrite IH, (IH _ ([] ++ ops)).
    destruct (draw_loop colors bw tr sn (idx + 1) els []) as [tail|];
      cbn; [|reflexivity].
    by rewrite app_assoc.
Qed.

Lemma draw_loop_cons (colors : list (string * rgb)) (bw : Z) (tr : Q)
    (sn : bool) (idx : Z) (e : element) (els : list element) :
  draw_loop colors bw tr sn idx (e :: els) []
  = ops ← draw_element colors bw tr sn idx e;
    tail ← draw_loop colors bw tr sn (idx + 1) els [];
    Some (ops ++ tail).
Proof.
  cbn [draw_loop].
  destruct (draw_element colors bw tr sn idx e) as [ops|];
    cbn [mbind option_bind]; [|reflexivity].
  rewrite draw_loop_acc.
  by destruct (draw_loop colors bw tr sn (idx + 1) els []).
Qed.

(** An element is passed exactly when it is [drawable]. *)
Lemma draw_element_is_Some (colors : list (string * rgb)) (bw : Z) (tr : Q)
    (sn : bool) (idx : Z) (e : element) :
  is_Some (draw_element colors bw tr sn idx e) <-> drawable bw e.
Proof.
  unfold draw_element, drawable.
  destruct (coordinates e) as [coords|]; [|split; [done | by eexists]].
  destruct (dict_get colors (type e) DEFAULT_COLOR) as [[r g] b].
  destruct (polygon_raises coords bw); split;
    first [done | by intros [? ?] | by eexists].
Qed.

(** An element puts one polygon on the overlay when it has coordinates and
    nothing at all when it has none. *)
Lemma draw_element_polygons (colors : list (string * rgb)) (bw : Z) (tr : Q)
    (sn : bool) (idx : Z) (e : element) (ops : list draw_op) :
  draw_element colors bw tr sn idx e = Some ops ->
  count_polygons ops = (if has_coordinates e then 1 else 0)%nat.
Proof.
  unfold draw_element, has_coordinates, count_polygons.
  destruct (coordinates e) as [coords|]; [|by intros [= <-]].
  destruct (dict_get colors (type e) DEFAULT_COLOR) as [[r g] b].
  destruct (polygon_raises coords bw); [discriminate|].
  intros [= <-]. destruct sn, coords; reflexivity.
Qed.

Lemma draw_element_absent (colors : list (string * rgb)) (bw : Z) (tr : Q)
    (sn : bool) (idx : Z) (e : element) :
  coordinates e = None -> draw_element colors bw tr sn idx e = Some [].
Proof. unfold draw_element. by intros ->. Qed.

(** The loop reaches its end exactly when every element is [drawable]. *)
Lemma draw_loop_is_Some (colors : list (string * rgb)) (bw : Z) (tr : Q)
    (sn : bool) (els : list element) (idx : Z) :
  is_Some (draw_loop colors bw tr sn idx els []) <-> Forall (drawable bw) els.
Proof.
  revert idx. induction els as [|e els IH]; intros idx.
  - split; [constructor | by eexists].
  - rewrite draw_loop_cons, Forall_cons, <- (IH (idx + 1)),
      <- (draw_element_is_Some colors bw tr sn idx e).
    destruct (draw_element colors bw tr sn idx e) as [ops|];
      cbn [mbind option_bind].
    + destruct (draw_loop colors bw tr sn (idx + 1) els []) as [tail|]; cbn.
      * split; [by split; eexists | by eexists].
      * split; [by intros [? ?] | by intros [_ [? ?]]].
    + split; [by intros [? ?] | by intros [[? ?] _]].
Qed.

Lemma draw_loop_polygons (colors : list (string * rgb)) (bw : Z) (tr : Q)
    (sn : bool) (els : list element) :
  forall (idx : Z) (overlay : list draw_op),
    draw_loop colors bw tr sn idx els [] = Some overlay ->
    count_polygons overlay = count_with_coordinates els.
Proof.
  induction els as [|e els IH]; intros idx overlay.
  - by intros [= <-].
  - rewrite draw_loop_cons.
    destruct (draw_element colors bw tr sn idx e) as [ops|] eqn:Hops;
      cbn [mbind option_bind]; [|discriminate].
    destruct (draw_loop colors bw tr sn (idx + 1) els []) as [tail|] eqn:Htail;
      cbn [mbind option_bind]; [|discriminate].
    intros [= <-].
    pose proof (draw_element_polygons _ _ _ _ _ _ _ Hops) as Hone.
    pose proof (IH _ _ Htail) as Hrest.
    unfold count_polygons in *. rewrite List.filter_app, length_app, Hone, Hrest.
    unfold count_with_coordinates. simpl.
    destruct (has_coordinates e); simpl; lia.
Qed.

(** C9: the view is returned exactly when [draw_bounding_boxes] passes
    every element (no present coordinate list that [draw.polygon] refuses),
    and whenever it is returned its formatted text is the newline-join of
    three parts per element in list order: the header with the element's
    1-based position in the full list (or the bare type when numbers are
    off), its text, and the 50-dash separator.  Nothing in the text depends
    on the coordinates: an element without coordinates has its three parts
    like any other, and only the overlay leaves it out, holding one polygon
    per element that has coordinates. *)
Theorem formatted_text_lists_every_element (els : list element) (bw : Z)
    (tr : Q) (sn : bool) (cs : string) :
  (is_Some (create_side_by_side_view els bw tr sn cs)
   <-> Forall (drawable bw) els)
  /\
  (forall (img : list draw_op) (formatted_text : string),
     create_side_by_side_view els bw tr sn cs = Some (img, formatted_text) ->
     exists text_parts,
       formatted_text = Py.join newline text_parts /\
       length text_parts = (3 * length els)%nat /\
       (forall (i : nat) (e : element),
          els !! i = Some e ->
          text_parts !! (3 * i)%nat = Some (header_line sn (Z.of_nat i + 1) e) /\
          text_parts !! (3 * i + 1)%nat = Some (text e) /\
          text_parts !! (3 * i + 2)%nat = Some separator_line) /\
       count_polygons img = count_with_coordinates els).
Proof.
  unfold create_side_by_side_view, draw_bounding_boxes. split.
  - rewrite <- (draw_loop_is_Some (get_color_scheme cs) bw tr sn els 1).
    destruct (draw_loop (get_color_scheme cs) bw tr sn 1 els []) as [img|]; cbn.
    + split; intros _; by eexists.
    + split; by intros [? ?].
  - intros img formatted_text.
    destruct (draw_loop (get_color_scheme cs) bw tr sn 1 els []) as [img'|] eqn:Himg;
      cbn [mbind option_bind]; [|discriminate].
    intros [= <- <-].
    exists (text_loop sn 1 els []). split; [reflexivity|].
    split; [apply text_loop_length|]. split.
    + intros i e He. replace (Z.of_nat i + 1) with (1 + Z.of_nat i) by lia.
      by apply text_loop_lookup.
    + by eapply draw_loop_polygons.
Qed.

Lemma formatted_text_lists_every_element_witness :
  Forall (drawable 7) sample_store /\
  exists img formatted_text text_parts,
    create_side_by_side_view sample_store 7 (7 # 10) true "Default"
      = Some (img, formatted_text) /\
    formatted_text = Py.join newline text_parts /\
    length text_parts = (3 * length sample_store)%nat /\
    text_parts !! (3 * 0)%nat
      = Some (header_line true (Z.of_nat 0 + 1)
                {| type := "Title"; text := "Report"; coordinates := None |}) /\
    count_polygons img = count_with_coordinates sample_store.
Proof.
  assert (Hdraw : Forall (drawable 7) sample_store).
  { repeat constructor. }
  split; [exact Hdraw|].
  destruct (proj2 (proj1 (formatted_text_lists_every_element sample_store 7
                            (7 # 10) true "Default")) Hdraw) as [[img txt] Hview].
  destruct (proj2 (formatted_text_lists_every_element sample_store 7
                     (7 # 10) true "Default") img txt Hview)
    as (text_parts & Htxt & Hlen & Hparts & Hcount).
  exists img, txt, text_parts.
  split; [exact Hview|]. split; [exact Htxt|]. split; [exact Hlen|].
  split; [|exact Hcount].
  apply (Hparts 0%nat). reflexivity.
Defined.

Example formatted_text_sample :
  create_side_by_side_view sample_store 7 (7 # 10) true "Default"
  = Some
      ([ Polygon scenario_box (255, 165, 0, 178) 7;
         LabelBackground (inject_Z 100, inject_Z 100) "2" (255, 165, 0, 178);
         LabelText (inject_Z 100, inject_Z 100) "2" (255, 255, 255, 255) ],
       "[1] Title" +:+ newline +:+ "Report" +:+ newline +:+ separator_line
       +:+ newline +:+ "[2] Table" +:+ newline +:+ "a b" +:+ newline
       +:+ separator_line).
Proof. vm_compute. reflexivity. Qed.

(** A coordinate list of a single point stops the whole view: no image and
    no text. *)
Example one_point_element_stops_the_view :
  create_side_by_side_view
    [ {| type := "Title"; text := "Report"; coordinates := None |};
      {| type := "Table"; text := "a b";
         coordinates := Some [(inject_Z 10, inject_Z 10)] |} ]
    7 (7 # 10) true "Default" = None.
Proof. reflexivity. Qed.

(** ** File discovery *)

#[local] Instance name_le_total : Total name_le.
Proof. intros a b. apply String.leb_total. Qed.

(** X17: the not-found error is raised exactly when nothing exists at the
    path. *)
Lemma scan_data_folder_not_found (fs : filesystem) (folder_path : string) :
  (exists msg, scan_data_folder fs folder_path = inl msg) <-> fs folder_path = None.
Proof.
  unfold scan_data_folder. destruct (fs folder_path); split.
  - intros [msg Hmsg]. discriminate.
  - discriminate.
  - reflexivity.
  - intros _. eauto.
Qed.

(** X18: on an existing folder the result is the sorted list of the entries
    that end in one of the four suffixes of line 24, entry for entry. *)
Lemma scan_data_folder_found (fs : filesystem) (folder_path : string)
    (entries : list string) :
  fs folder_path = Some entries ->
  exists names,
    scan_data_folder fs folder_path = inr (map (path_str folder_path) names) /\
    Sorted name_le names /\
    names ≡ₚ glob_star entries ".tiff" ++ glob_star entries ".tif"
              ++ glob_star entries ".TIFF" ++ glob_star entries ".TIF".
Proof.
  intros Hfs. unfold scan_data_folder. rewrite Hfs. cbn [fold_left app].
  eexists. split; [reflexivity|]. split.
  - apply Sorted_merge_sort. apply _.
  - rewrite merge_sort_Permutation. by rewrite <- !app_assoc.
Qed.

Lemma glob_star_none (entries : list string) (suffix : string) :
  Forall (fun name => ends_with suffix name = false) entries ->
  glob_star entries suffix = [].
Proof.
  unfold glob_star. induction 1 as [|x xs Hx _ IH]; [reflexivity|].
  rewrite filter_cons, IH.
  destruct (decide (ends_with suffix x = true)); [congruence|reflexivity].
Qed.

(** X19: no matching entry: the empty list, and no error. *)
Lemma scan_data_folder_no_match (fs : filesystem) (folder_path : string)
    (entries : list string) :
  fs folder_path = Some entries ->
  Forall (fun name => ends_with ".tiff" name = false /\ ends_with ".tif" name = false
                      /\ ends_with ".TIFF" name = false /\ ends_with ".TIF" name = false)
         entries ->
  scan_data_folder fs folder_path = inr [].
Proof.
  intros Hfs Hnone. unfold scan_data_folder. rewrite Hfs. cbn [fold_left app].
  rewrite !glob_star_none; [reflexivity|..];
    (eapply Forall_impl; [exact Hnone|]; intros name H; simpl in H; tauto).
Qed.

(** The paths are printed the way [Path] prints them, whatever the spelling
    of the folder path. *)
Example path_str_normalises :
  map (fun folder_path => path_str folder_path "a.tif")
      ["data"; "data/"; "."; ""; "./data//sub/"; "/"; "/srv/in"; "//srv"; "data/.."]
  = ["data/a.tif"; "data/a.tif"; "a.tif"; "a.tif"; "data/sub/a.tif"; "/a.tif";
     "/srv/in/a.tif"; "//srv/a.tif"; "data/../a.tif"].
Proof. reflexivity. Qed.

(** C8 (the code at the input where the claim breaks): in a folder holding
    [b.tif], [scan.Tif], [notes.txt] and [a.TIFF] the scan returns the two
    files matched by the four patterns, sorted, and leaves out [scan.Tif],
    whose extension is [.tif] once case is ignored. *)
Theorem scan_data_folder_skips_mixed_case :
  scan_data_folder sample_fs "data" = inr ["data/a.TIFF"; "data/b.tif"]
  /\ spec_is_tiff "scan.Tif" = true
  /\ sample_fs "data" = Some ["b.tif"; "scan.Tif"; "notes.txt"; "a.TIFF"].
Proof. repeat split; vm_compute; reflexivity. Qed.

(* ===================================================================== *)
(** * Further properties of the code *)
(* ===================================================================== *)

(** ** Geometry *)

Lemma adjust_coordinates_guards_witness :
  scenario_box <> [] /\
  exists x0 x1 y0 y1,
    adjust_coordinates scenario_box (-2000) 2000 (-2000) 2000 400 300
      = Some [(x0, y0); (x1, y0); (x1, y1); (x0, y1)] /\
    (inject_Z 0 <= x0 /\ x1 <= inject_Z 400 /\
     inject_Z 0 <= y0 /\ y1 <= inject_Z 300)%Q.
Proof.
  split; [discriminate|].
  apply (adjust_coordinates_guards scenario_box). discriminate.
Defined.

(** X2: the three geometry functions raise exactly on the empty list. *)
Theorem geometry_raises_exactly_on_empty (P : list point) (l r t b W H : Z) :
  (adjust_coordinates P l r t b W H = None <-> P = []) /\
  (get_bounding_box_size P = None <-> P = []) /\
  (bounding_box P = None <-> P = []).
Proof.
  destruct P as [|p P]; repeat split; try reflexivity; try discriminate;
    intros; exfalso; congruence.
Qed.

Lemma inject_Z_nonneg (z : Z) : 0 <= z -> (inject_Z 0 <= inject_Z z)%Q.
Proof. intros Hz. by rewrite <- Zle_Qle. Qed.

(** X3: growing a box that lies on the image keeps it on the image: with
    all four adjustments non-negative every corner of the result is on the
    image, and the bounding box of the result contains that of the input. *)
Theorem expansion_stays_on_image (P : list point) (l r t b W H : Z) :
  P <> [] ->
  (forall p, In p P -> in_image W H p) ->
  0 <= l -> 0 <= r -> 0 <= t -> 0 <= b ->
  exists R bR bP,
    adjust_coordinates P l r t b W H = Some R /\
    (forall p, In p R -> in_image W H p) /\
    bounding_box R = Some bR /\
    bounding_box P = Some bP /\
    bbox_contains bR bP.
Proof.
  intros HP Himg Hl Hr Ht Hb.
  apply inject_Z_nonneg in Hl, Hr, Ht, Hb.
  destruct (adjust_coordinates_some P l r t b W H HP)
    as (min_x & max_x & min_y & max_y & Hmx & HMx & Hmy & HMy & ->).
  pose proof (py_min_le_max _ _ _ Hmx HMx) as Hx.
  pose proof (py_min_le_max _ _ _ Hmy HMy) as Hy.
  pose proof (in_map_fst_image P W H min_x Himg (proj1 (py_min_spec _ _ Hmx))) as Bmx.
  pose proof (in_map_fst_image P W H max_x Himg (proj1 (py_max_spec _ _ HMx))) as BMx.
  pose proof (in_map_snd_image P W H min_y Himg (proj1 (py_min_spec _ _ Hmy))) as Bmy.
  pose proof (in_map_snd_image P W H max_y Himg (proj1 (py_max_spec _ _ HMy))) as BMy.
  change (inject_Z 0) with 0%Q in *.
  set (a := Py.max2 0 (min_x - inject_Z l)%Q).
  set (b' := Py.min2 (inject_Z W) (max_x + inject_Z r)%Q).
  set (c := Py.max2 0 (min_y - inject_Z t)%Q).
  set (d := Py.min2 (inject_Z H) (max_y + inject_Z b)%Q).
  assert (Ha : (0 <= a /\ a <= min_x)%Q).
  { unfold a, Py.max2. q_case; lra. }
  assert (Hb' : (max_x <= b' /\ b' <= inject_Z W)%Q).
  { unfold b', Py.min2. q_case; lra. }
  assert (Hc : (0 <= c /\ c <= min_y)%Q).
  { unfold c, Py.max2. q_case; lra. }
  assert (Hd : (max_y <= d /\ d <= inject_Z H)%Q).
  { unfold d, Py.min2. q_case; lra. }
  destruct (corners_bounding_box a b' c d)
    as (x0 & y0 & x1 & y1 & Hbb & Hx0 & Hx1 & Hy0 & Hy1).
  exists [(a, c); (b', c); (b', d); (a, d)], (x0, y0, x1, y1),
         (min_x, min_y, max_x, max_y).
  split; [reflexivity|]. split.
  { intros p Hp. unfold in_image. change (inject_Z 0) with 0%Q.
    destruct Hp as [<-|[<-|[<-|[<-|[]]]]]; simpl; lra. }
  split; [exact Hbb|]. split.
  { unfold bounding_box. rewrite Hmx, Hmy, HMx, HMy. reflexivity. }
  apply corners_min in Hx0 as (_ & _ & Hx0 & _).
  apply corners_max in Hx1 as (_ & _ & Hx1 & _).
  apply corners_min_y in Hy0 as (_ & _ & Hy0 & _).
  apply corners_max_y in Hy1 as (_ & _ & Hy1 & _).
  assert (Hab : (a <= b')%Q) by lra.
  assert (Hcd : (c <= d)%Q) by lra.
  specialize (Hx0 Hab). specialize (Hx1 Hab).
  specialize (Hy0 Hcd). specialize (Hy1 Hcd).
  unfold bbox_contains. repeat split; lra.
Qed.

Lemma scenario_box_in_image :
  forall p, In p scenario_box -> in_image 400 300 p.
Proof.
  intros p Hp. unfold scenario_box in Hp. simpl in Hp.
  unfold in_image, Qle.
  destruct Hp as [<-|[<-|[<-|[<-|[]]]]]; simpl; lia.
Defined.

Lemma expansion_stays_on_image_witness :
  (scenario_box <> [] /\ (forall p, In p scenario_box -> in_image 400 300 p)
   /\ 0 <= 150 /\ 0 <= 150 /\ 0 <= 0 /\ 0 <= 200) /\
  exists R bR bP,
    adjust_coordinates scenario_box 150 150 0 200 400 300 = Some R /\
    (forall p, In p R -> in_image 400 300 p) /\
    bounding_box R = Some bR /\
    bounding_box scenario_box = Some bP /\
    bbox_contains bR bP.
Proof.
  split.
  - split; [discriminate|]. split; [exact scenario_box_in_image|]. lia.
  - apply (expansion_stays_on_image scenario_box 150 150 0 200 400 300);
      [discriminate | exact scenario_box_in_image | lia | lia | lia | lia].
Defined.

(** Truncation gives the same integer on numerically equal floats. *)
Lemma py_int_Qeq (a b : Q) : (a == b)%Q -> Py.int a = Py.int b.
Proof.
  destruct a as [n1 d1], b as [n2 d2]. unfold Qeq, Py.int. simpl. intros Heq.
  rewrite <- (Z.quot_mul_cancel_r n1 (Z.pos d1) (Z.pos d2)) by lia.
  rewrite <- (Z.quot_mul_cancel_r n2 (Z.pos d2) (Z.pos d1)) by lia.
  rewrite Heq. f_equal. lia.
Qed.

(** X4: the size reported for an adjusted box is the truncated absolute
    difference of its bounds on each axis, so a box whose bounds crossed
    (a contraction larger than the box) reports the size of the box between
    the crossed bounds. *)
Theorem adjusted_box_size_is_absolute (P : list point) (l r t b W H : Z) :
  P <> [] ->
  exists x0 x1 y0 y1,
    adjust_coordinates P l r t b W H
      = Some [(x0, y0); (x1, y0); (x1, y1); (x0, y1)] /\
    get_bounding_box_size [(x0, y0); (x1, y0); (x1, y1); (x0, y1)]
      = Some (Py.int (Qabs (x1 - x0)), Py.int (Qabs (y1 - y0))).
Proof.
  intros HP.
  destruct (adjust_coordinates_some P l r t b W H HP)
    as (min_x & max_x & min_y & max_y & _ & _ & _ & _ & ->).
  do 4 eexists. split; [reflexivity|].
  match goal with
  | |- get_bounding_box_size [(?a, ?c); (?b, _); (_, ?d); _] = _ =>
      generalize a b c d
  end.
  intros x0 x1 y0 y1. unfold get_bounding_box_size.
  cbn [map fst snd].
  destruct (Py.max [x0; x1; x1; x0]) as [Mx|] eqn:HMx; [|discriminate].
  destruct (Py.min [x0; x1; x1; x0]) as [mx|] eqn:Hmx; [|discriminate].
  destruct (Py.max [y0; y0; y1; y1]) as [My|] eqn:HMy; [|discriminate].
  destruct (Py.min [y0; y0; y1; y1]) as [my|] eqn:Hmy; [|discriminate].
  cbn [mbind option_bind].
  apply corners_max in HMx as (_ & _ & HMx1 & HMx2).
  apply corners_min in Hmx as (_ & _ & Hmx1 & Hmx2).
  apply corners_max_y in HMy as (_ & _ & HMy1 & HMy2).
  apply corners_min_y in Hmy as (_ & _ & Hmy1 & Hmy2).
  f_equal. f_equal; apply py_int_Qeq.
  - destruct (Qlt_le_dec x1 x0) as [Hlt|Hle].
    + rewrite Qabs_neg by lra. rewrite HMx2, Hmx2 by lra. ring.
    + rewrite Qabs_pos by lra. rewrite HMx1, Hmx1 by lra. ring.
  - destruct (Qlt_le_dec y1 y0) as [Hlt|Hle].
    + rewrite Qabs_neg by lra. rewrite HMy2, Hmy2 by lra. ring.
    + rewrite Qabs_pos by lra. rewrite HMy1, Hmy1 by lra. ring.
Qed.

Lemma adjusted_box_size_is_absolute_witness :
  scenario_box <> [] /\
  exists x0 x1 y0 y1,
    adjust_coordinates scenario_box (-250) 0 0 0 400 300
      = Some [(x0, y0); (x1, y0); (x1, y1); (x0, y1)] /\
    get_bounding_box_size [(x0, y0); (x1, y0); (x1, y1); (x0, y1)]
      = Some (Py.int (Qabs (x1 - x0)), Py.int (Qabs (y1 - y0))).
Proof.
  split; [discriminate|].
  apply (adjusted_box_size_is_absolute scenario_box). discriminate.
Defined.

(** ** Edit statements and the store *)

Lemma exec_op_frame (s : session) (op : edit_op) :
  original (snd (exec_op s op)) = original (snd s) /\
  current (snd (exec_op s op)) = current (snd s) /\
  edited_indices (snd s) ⊆ edited_indices (snd (exec_op s op)) /\
  length (fst (exec_op s op)) = length (fst s) /\
  forall l, l ∉ current (snd s) -> fst (exec_op s op) !! l = fst s !! l.
Proof.
  destruct s as [st et]. unfold exec_op.
  destruct op as [idx ty|idx txt|idx coords|idx|]; cbn [apply_op].
  - destruct (update_element_type_cases st (current et) idx ty)
      as [->|(l & Hl & ->)]; cbn; repeat split; try done.
    + apply length_alter.
    + intros k Hk. apply list_lookup_alter_ne. intros ->. by apply Hk.
  - destruct (replace_element_with_reparsed_cases st (current et) idx txt)
      as [->|(l & Hl & ->)]; cbn; repeat split; try done.
    + apply length_alter.
    + intros k Hk. apply list_lookup_alter_ne. intros ->. by apply Hk.
  - destruct (setitem_coordinates st (current et) idx coords) as [st'|] eqn:Hset;
      cbn; repeat split; try done.
    + apply setitem_coordinates_cases in Hset as (l & Hl & ->).
      apply length_alter.
    + apply setitem_coordinates_cases in Hset as (l & Hl & ->).
      intros k Hk. apply list_lookup_alter_ne. intros ->. by apply Hk.
  - cbn. repeat split; try done. apply union_subseteq_r.
  - destruct (get_edit_summary st et); cbn; repeat split; done.
Qed.

Lemma run_ops_frame_current (ops : list edit_op) :
  forall s : session,
    original (snd (run_ops s ops)) = original (snd s) /\
    current (snd (run_ops s ops)) = current (snd s) /\
    edited_indices (snd s) ⊆ edited_indices (snd (run_ops s ops)) /\
    length (fst (run_ops s ops)) = length (fst s) /\
    (forall l, l ∉ current (snd s) -> fst (run_ops s ops) !! l = fst s !! l).
Proof.
  unfold run_ops.
  induction ops as [|op ops IH]; intros s; [by repeat split|].
  cbn [fold_left].
  destruct (exec_op_frame s op) as (Ho & Hc & He & Hlen & Hl).
  destruct (IH (exec_op s op)) as (Ho' & Hc' & He' & Hlen' & Hl').
  split; [congruence|]. split; [congruence|].
  split; [by etrans|]. split; [congruence|].
  intros l Hnot. rewrite Hl' by (by rewrite Hc). by apply Hl.
Qed.

(** X5: edit statements write only to the objects that [current] refers
    to.  Whatever the session and the statements, the two lists of the
    record stay the same lists, no object is created or removed, no edited
    index is lost, and every list of references that shares no object with
    [current] reads the same before and after. *)
Theorem edits_write_only_current (s : session) (ops : list edit_op) :
  original (snd (run_ops s ops)) = original (snd s) /\
  current (snd (run_ops s ops)) = current (snd s) /\
  edited_indices (snd s) ⊆ edited_indices (snd (run_ops s ops)) /\
  length (fst (run_ops s ops)) = length (fst s) /\
  (forall l, l ∉ current (snd s) -> fst (run_ops s ops) !! l = fst s !! l) /\
  (forall ls, (forall l, l ∈ ls -> l ∉ current (snd s)) ->
     read_list (fst (run_ops s ops)) ls = read_list (fst s) ls).
Proof.
  destruct (run_ops_frame_current ops s) as (Ho & Hc & He & Hlen & Hl).
  repeat split; try assumption.
  intros ls Hdisj. apply read_list_agree, Forall_forall.
  intros l Hin. apply Hl, Hdisj, Hin.
Qed.

(** X6: a record made by [initialize_edit_tracking] keeps its shape under
    every run of edit statements: [original] and [current] have as many
    entries as the parse result, every entry of [current] is an object of
    the store, and [current] shares no object with [original] or with the
    parse result. *)
Theorem tracking_keeps_shape (st0 : store) (fd : file_data) (s1 : session)
    (ops : list edit_op) :
  valid_refs st0 (elements fd) ->
  initialize_edit_tracking st0 fd = Some s1 ->
  length (original (snd (run_ops s1 ops))) = length (elements fd) /\
  length (current (snd (run_ops s1 ops))) = length (elements fd) /\
  is_Some (read_list (fst (run_ops s1 ops)) (current (snd (run_ops s1 ops)))) /\
  (forall l, l ∈ original (snd (run_ops s1 ops)) ->
             l ∉ current (snd (run_ops s1 ops))) /\
  (forall l, l ∈ elements fd -> l ∉ current (snd (run_ops s1 ops))).
Proof.
  intros Hv Hinit.
  destruct (initialize_edit_tracking_spec st0 fd Hv)
    as (new1 & new2 & orig & cur & vs & Hinit' & Hin & Horig & Hcur & Hlo & Hhi).
  rewrite Hinit in Hinit'. injection Hinit' as ->.
  destruct (run_ops_frame_current ops
              ((st0 ++ new1) ++ new2,
               {| original := orig; current := cur; edited_indices := ∅ |}))
    as (Ho & Hc & _ & Hlen & _).
  cbn [fst snd original current] in *. rewrite Ho, Hc.
  apply read_list_Forall2 in Hin, Horig. 
  pose proof (Forall2_length _ _ _ Hin) as L1.
  pose proof (Forall2_length _ _ _ Horig) as L2.
  pose proof (read_list_below _ _ _ Hcur) as Hbelow.
  apply read_list_Forall2 in Hcur.
  pose proof (Forall2_length _ _ _ Hcur) as L3.
  split; [congruence|]. split; [congruence|]. split.
  - apply mapM_is_Some_2. eapply Forall_impl; [exact Hbelow|].
    intros l Hl. simpl in *. apply lookup_lt_is_Some_2. by rewrite Hlen.
  - rewrite Forall_forall in Hlo, Hhi. split.
    + intros l Hl1 Hl2. specialize (Hlo l Hl1). specialize (Hhi l Hl2). lia.
    + intros l Hl1 Hl2. unfold valid_refs in Hv. rewrite Forall_forall in Hv.
      specialize (Hv l Hl1). specialize (Hhi l Hl2).
      rewrite length_app in Hhi. lia.
Qed.

Lemma tracking_keeps_shape_witness :
  (valid_refs sample_store (elements sample_file) /\
   initialize_edit_tracking sample_store sample_file = Some sample_session) /\
  length (original (snd (run_ops sample_session sample_edits)))
    = length (elements sample_file) /\
  length (current (snd (run_ops sample_session sample_edits)))
    = length (elements sample_file) /\
  is_Some (read_list (fst (run_ops sample_session sample_edits))
                     (current (snd (run_ops sample_session sample_edits)))) /\
  (forall l, l ∈ original (snd (run_ops sample_session sample_edits)) ->
             l ∉ current (snd (run_ops sample_session sample_edits))) /\
  (forall l, l ∈ elements sample_file ->
             l ∉ current (snd (run_ops sample_session sample_edits))).
Proof.
  assert (Hv : valid_refs sample_store (elements sample_file)).
  { repeat constructor. }
  split; [split; [exact Hv | reflexivity]|].
  apply (tracking_keeps_shape sample_store sample_file); [exact Hv | reflexivity].
Defined.

Lemma set_type_set_type (t1 t2 : string) (e : element) :
  set_type t2 (set_type t1 e) = set_type t2 e.
Proof. reflexivity. Qed.

Lemma set_text_set_text (x1 x2 : string) (e : element) :
  set_text x2 (set_text x1 e) = set_text x2 e.
Proof. reflexivity. Qed.

Lemma set_type_set_text (t x : string) (e : element) :
  set_type t (set_text x e) = set_text x (set_type t e).
Proof. reflexivity. Qed.

(** X7: the last write wins.  Relabelling the same index twice is the same
    as relabelling it once with the second type, and likewise for two text
    replacements; in particular each function is idempotent. *)
Theorem relabel_last_wins (st : store) (els : list loc) (idx : Z)
    (t1 t2 x1 x2 : string) :
  update_element_type (fst (update_element_type st els idx t1))
                      (snd (update_element_type st els idx t1)) idx t2
    = update_element_type st els idx t2
  /\
  replace_element_with_reparsed
      (fst (replace_element_with_reparsed st els idx x1))
      (snd (replace_element_with_reparsed st els idx x1)) idx x2
    = replace_element_with_reparsed st els idx x2.
Proof.
  unfold update_element_type, replace_element_with_reparsed.
  destruct (bool_decide (0 <= idx < Z.of_nat (length els))) eqn:Hin;
  destruct (els !! Z.to_nat idx) as [l|] eqn:Hl;
  cbn [fst snd]; rewrite ?Hin, ?Hl; try done.
  rewrite !list_alter_alter_eq. split; f_equal.
Qed.

(** X8: a relabel and a text replacement commute, on the same index or on
    two different ones: the two fields are written independently. *)
Theorem relabel_replace_commute (st : store) (els : list loc) (i j : Z)
    (new_type new_text : string) :
  replace_element_with_reparsed
      (fst (update_element_type st els i new_type))
      (snd (update_element_type st els i new_type)) j new_text
  = update_element_type
      (fst (replace_element_with_reparsed st els j new_text))
      (snd (replace_element_with_reparsed st els j new_text)) i new_type.
Proof.
  unfold update_element_type, replace_element_with_reparsed.
  destruct (bool_decide (0 <= i < Z.of_nat (length els))) eqn:Hi;
  destruct (bool_decide (0 <= j < Z.of_nat (length els))) eqn:Hj;
  destruct (els !! Z.to_nat i) as [li|] eqn:Hli;
  destruct (els !! Z.to_nat j) as [lj|] eqn:Hlj;
  cbn [fst snd]; rewrite ?Hi, ?Hj, ?Hli, ?Hlj; try reflexivity.
  f_equal. rewrite list_alter_alter.
  destruct (decide (lj = li)) as [->|Hne]; [|reflexivity].
  rewrite list_alter_alter_eq. by apply list_alter_ext.
Qed.

Lemma on_reparse_effect_aux (st : store) (et : edit_tracking) (n : Z) (l : loc)
    (e : element) (new_text : string) (adjusted_coords : list point) :
  1 <= n ->
  current et !! Z.to_nat (n - 1) = Some l ->
  st !! l = Some e ->
  fst (on_reparse (st, et) n (Some new_text) adjusted_coords) !! l
    = Some {| type := type e; text := new_text;
              coordinates := Some adjusted_coords |} /\
  (forall k, k <> l ->
     fst (on_reparse (st, et) n (Some new_text) adjusted_coords) !! k = st !! k) /\
  original (snd (on_reparse (st, et) n (Some new_text) adjusted_coords))
    = original et /\
  current (snd (on_reparse (st, et) n (Some new_text) adjusted_coords))
    = current et /\
  edited_indices (snd (on_reparse (st, et) n (Some new_text) adjusted_coords))
    = {[n - 1]} ∪ edited_indices et.
Proof.
  intros Hn Hl He.
  pose proof (lookup_lt_Some _ _ _ Hl) as Hlt.
  unfold on_reparse, replace_element_with_reparsed.
  rewrite bool_decide_eq_true_2 by lia. rewrite Hl.
  unfold setitem_coordinates.
  rewrite (getitem_in_range (current et) (n - 1) l) by (lia || exact Hl).
  cbn [mbind option_bind fst snd original current edited_indices].
  split.
  - rewrite list_lookup_alter_eq, list_lookup_alter_eq, He. reflexivity.
  - split; [|done]. intros k Hk.
    rewrite !list_lookup_alter_ne by congruence. reflexivity.
Qed.

(** X9: the re-parse handler on element number [n] of a session whose
    [current] holds an object there: a failed [parse_region] changes
    nothing; a successful one gives that object the new text and the
    adjusted coordinates, keeps its type, leaves every other object and the
    two lists as they were, and adds [n - 1] to the edited indices. *)
Theorem on_reparse_effect (st : store) (et : edit_tracking) (n : Z) (l : loc)
    (e : element) (new_text : string) (adjusted_coords : list point) :
  1 <= n ->
  current et !! Z.to_nat (n - 1) = Some l ->
  st !! l = Some e ->
  on_reparse (st, et) n None adjusted_coords = (st, et) /\
  fst (on_reparse (st, et) n (Some new_text) adjusted_coords) !! l
    = Some {| type := type e; text := new_text;
              coordinates := Some adjusted_coords |} /\
  (forall k, k <> l ->
     fst (on_reparse (st, et) n (Some new_text) adjusted_coords) !! k = st !! k) /\
  original (snd (on_reparse (st, et) n (Some new_text) adjusted_coords))
    = original et /\
  current (snd (on_reparse (st, et) n (Some new_text) adjusted_coords))
    = current et /\
  edited_indices (snd (on_reparse (st, et) n (Some new_text) adjusted_coords))
    = {[n - 1]} ∪ edited_indices et.
Proof.
  intros Hn Hl He. split; [reflexivity|].
  by apply (on_reparse_effect_aux st et n l e).
Qed.

Lemma on_reparse_effect_witness :
  (1 <= 2 /\
   current (snd sample_session) !! Z.to_nat (2 - 1) = Some 5%nat /\
   fst sample_session !! 5%nat
     = Some {| type := "Table"; text := "a b"; coordinates := Some scenario_box |}) /\
  fst (on_reparse sample_session 2 (Some "c d") outside_box) !! 5%nat
    = Some {| type := "Table"; text := "c d"; coordinates := Some outside_box |} /\
  edited_indices (snd (on_reparse sample_session 2 (Some "c d") outside_box))
    = {[2 - 1]} ∪ ∅.
Proof.
  split; [split; [lia | split; reflexivity]|].
  destruct (on_reparse_effect (fst sample_session) (snd sample_session) 2 5%nat
              {| type := "Table"; text := "a b"; coordinates := Some scenario_box |}
              "c d" outside_box)
    as (_ & Hobj & _ & _ & _ & Hed); [lia | reflexivity | reflexivity |].
  split; [exact Hobj | exact Hed].
Defined.

(** ** More on the edit summary *)

Lemma sorted_indices_single (i : Z) : sorted_indices {[i]} = [i].
Proof. unfold sorted_indices. rewrite elements_singleton. reflexivity. Qed.

(** The summary of a record with exactly one edited index. *)
Lemma summary_single_index (st : store) (et : edit_tracking) (i : Z)
    (lo lc : loc) (eo ec : element) :
  edited_indices et = {[i]} ->
  0 <= i ->
  original et !! Z.to_nat i = Some lo -> st !! lo = Some eo ->
  current et !! Z.to_nat i = Some lc -> st !! lc = Some ec ->
  get_edit_summary st et
  = Some (Py.join newline
      match element_changes eo ec with
      | [] => []
      | changes =>
          ["Element " +:+ Py.str (i + 1) +:+ ": " +:+ Py.join ", " changes]
      end).
Proof.
  intros Hed Hi Hlo Heo Hlc Hec. unfold get_edit_summary. rewrite Hed.
  rewrite bool_decide_eq_false_2 by apply non_empty_singleton_L.
  rewrite sorted_indices_single. cbn [summary_loop].
  rewrite (getitem_in_range _ _ _ Hi Hlo). cbn [mbind option_bind].
  rewrite Heo. cbn [mbind option_bind].
  rewrite (getitem_in_range _ _ _ Hi Hlc). cbn [mbind option_bind].
  rewrite Hec. cbn [mbind option_bind].
  destruct (element_changes eo ec); reflexivity.
Qed.

(** X10: the summary after one re-parse of element [i + 1] of a fresh
    record is the line "Element i+1: Text modified" when the new text
    differs from the original one, and the empty text when it does not:
    a change of coordinates alone is not reported. *)
Theorem summary_after_reparse (st0 : store) (fd : file_data) (s1 : session)
    (i : Z) (l : loc) (e : element) (new_text : string)
    (adjusted_coords : list point) :
  valid_refs st0 (elements fd) ->
  initialize_edit_tracking st0 fd = Some s1 ->
  0 <= i ->
  elements fd !! Z.to_nat i = Some l ->
  st0 !! l = Some e ->
  get_edit_summary
    (fst (on_reparse s1 (i + 1) (Some new_text) adjusted_coords))
    (snd (on_reparse s1 (i + 1) (Some new_text) adjusted_coords))
  = Some (if bool_decide (text e <> new_text)
          then "Element " +:+ Py.str (i + 1) +:+ ": Text modified"
          else "").
Proof.
  intros Hv Hinit Hi Hl He.
  destruct (initialize_edit_tracking_spec st0 fd Hv)
    as (new1 & new2 & orig & cur & vs & Hinit' & Hin & Horig & Hcur & Hlo & Hhi).
  rewrite Hinit in Hinit'. injection Hinit' as ->.
  pose proof (read_list_lookup_l _ _ _ _ _ _ Hin Hl He) as Hv_i.
  destruct (read_list_lookup _ _ _ _ _ Horig Hv_i) as (lo & Hlo_i & Hlo_v).
  destruct (read_list_lookup _ _ _ _ _ Hcur Hv_i) as (lc & Hlc_i & Hlc_v).
  assert (Hne : lo <> lc).
  { rewrite Forall_forall in Hlo, Hhi.
    pose proof (Hlo lo (list_elem_of_lookup_2 _ _ _ Hlo_i)).
    pose proof (Hhi lc (list_elem_of_lookup_2 _ _ _ Hlc_i)). lia. }
  assert (Hidx : Z.to_nat (i + 1 - 1) = Z.to_nat i) by (f_equal; lia).
  destruct (on_reparse_effect_aux ((st0 ++ new1) ++ new2)
              {| original := orig; current := cur; edited_indices := ∅ |}
              (i + 1) lc e new_text adjusted_coords)
    as (Hobj & Hother & Ho & Hc & Hed);
    [lia | by rewrite Hidx | exact Hlc_v |].
  rewrite (summary_single_index _ _ i lo lc e
             {| type := type e; text := new_text;
                coordinates := Some adjusted_coords |}).
  - unfold element_changes. cbn [type text].
    rewrite (bool_decide_eq_false_2 (type e <> type e)) by (intros H; by apply H).
    case_bool_decide; reflexivity.
  - rewrite Hed. replace (i + 1 - 1) with i by lia. apply union_empty_r_L.
  - exact Hi.
  - by rewrite Ho.
  - rewrite Hother by exact Hne. exact Hlo_v.
  - by rewrite Hc.
  - exact Hobj.
Qed.

Lemma summary_after_reparse_witness :
  (valid_refs sample_store (elements sample_file) /\
   initialize_edit_tracking sample_store sample_file = Some sample_session /\
   0 <= 1 /\
   elements sample_file !! Z.to_nat 1 = Some 1%nat /\
   sample_store !! 1%nat
     = Some {| type := "Table"; text := "a b"; coordinates := Some scenario_box |}) /\
  get_edit_summary
    (fst (on_reparse sample_session (1 + 1) (Some "a b") outside_box))
    (snd (on_reparse sample_session (1 + 1) (Some "a b") outside_box))
  = Some (if bool_decide ("a b" <> "a b")
          then "Element " +:+ Py.str (1 + 1) +:+ ": Text modified"
          else "").
Proof.
  assert (Hv : valid_refs sample_store (elements sample_file)).
  { repeat constructor. }
  split; [split; [exact Hv|]; split; [reflexivity|]; split; [lia|];
          split; reflexivity|].
  apply (summary_after_reparse sample_store sample_file sample_session 1 1%nat
           {| type := "Table"; text := "a b"; coordinates := Some scenario_box |}
           "a b" outside_box);
    [exact Hv | reflexivity | lia | reflexivity | reflexivity].
Defined.

Lemma elem_of_sorted_indices (s : gset Z) (i : Z) :
  i ∈ sorted_indices s <-> i ∈ s.
Proof.
  unfold sorted_indices. rewrite merge_sort_Permutation.
  apply elem_of_elements.
Qed.

Lemma summary_loop_raises (st : store) (et : edit_tracking) (i : Z)
    (idxs : list Z) :
  i ∈ idxs -> Py.getitem (original et) i = None ->
  forall acc, summary_loop st et idxs acc = None.
Proof.
  intros Hin Hnone. induction idxs as [|j idxs IH]; intros acc.
  - by apply elem_of_nil in Hin.
  - cbn [summary_loop]. apply elem_of_cons in Hin as [<-|Hin].
    + by rewrite Hnone.
    + destruct (Py.getitem (original et) j) as [lo|]; [|reflexivity].
      cbn [mbind option_bind].
      destruct (st !! lo) as [eo|]; [|reflexivity]. cbn [mbind option_bind].
      destruct (Py.getitem (current et) j) as [lc|]; [|reflexivity].
      cbn [mbind option_bind].
      destruct (st !! lc) as [ec|]; [|reflexivity]. cbn [mbind option_bind].
      by apply IH.
Qed.

(** X11: [get_edit_summary] raises ([IndexError]) as soon as one edited
    index lies outside [-len, len) of [original]; this is what follows an
    out-of-range relabel, which [update_element_type] lets pass silently,
    once its index has been added to the edited indices. *)
Theorem summary_raises_on_stray_index (st : store) (et : edit_tracking) (i : Z) :
  i ∈ edited_indices et ->
  i < - Z.of_nat (length (original et)) \/ Z.of_nat (length (original et)) <= i ->
  get_edit_summary st et = None.
Proof.
  intros Hin Hout. unfold get_edit_summary.
  rewrite bool_decide_eq_false_2 by (intros Hempty; rewrite Hempty in Hin;
                                     by apply not_elem_of_empty in Hin).
  rewrite (summary_loop_raises st et i); [reflexivity| |].
  - by apply elem_of_sorted_indices.
  - unfold Py.getitem. rewrite !bool_decide_eq_false_2 by lia. reflexivity.
Qed.

Lemma summary_raises_on_stray_index_witness :
  (5 ∈ edited_indices (snd (run_ops sample_session [UpdateType 5 "Header"; AddEdited 5]))
   /\ (5 < - Z.of_nat (length (original (snd (run_ops sample_session
                                  [UpdateType 5 "Header"; AddEdited 5]))))
       \/ Z.of_nat (length (original (snd (run_ops sample_session
                                  [UpdateType 5 "Header"; AddEdited 5])))) <= 5)) /\
  fst (run_ops sample_session [UpdateType 5 "Header"; AddEdited 5])
    = fst sample_session /\
  get_edit_summary
    (fst (run_ops sample_session [UpdateType 5 "Header"; AddEdited 5]))
    (snd (run_ops sample_session [UpdateType 5 "Header"; AddEdited 5])) = None.
Proof.
  assert (Hin : 5 ∈ edited_indices
                  (snd (run_ops sample_session [UpdateType 5 "Header"; AddEdited 5]))).
  { cbn. apply elem_of_union_l, elem_of_singleton. reflexivity. }
  assert (Hout : 5 < - Z.of_nat (length (original (snd (run_ops sample_session
                                  [UpdateType 5 "Header"; AddEdited 5]))))
       \/ Z.of_nat (length (original (snd (run_ops sample_session
                                  [UpdateType 5 "Header"; AddEdited 5])))) <= 5).
  { right. vm_compute. discriminate. }
  split; [split; assumption|]. split; [reflexivity|].
  apply (summary_raises_on_stray_index _ _ 5 Hin Hout).
Defined.

Lemma exec_op_edited (s : session) (op : edit_op) :
  edited_indices (snd (exec_op s op))
  = match op with
    | AddEdited idx => {[idx]} ∪ edited_indices (snd s)
    | _ => edited_indices (snd s)
    end.
Proof.
  destruct s as [st et]. unfold exec_op.
  destruct op as [idx ty|idx txt|idx coords|idx|]; cbn [apply_op].
  - by destruct (update_element_type st (current et) idx ty).
  - by destruct (replace_element_with_reparsed st (current et) idx txt).
  - by destruct (setitem_coordinates st (current et) idx coords).
  - reflexivity.
  - by destruct (get_edit_summary st et).
Qed.

Lemma run_ops_edited_range (n : nat) (ops : list edit_op) :
  Forall (op_in_range n) ops ->
  forall s : session,
    (forall i, i ∈ edited_indices (snd s) -> - Z.of_nat n <= i < Z.of_nat n) ->
    forall i, i ∈ edited_indices (snd (run_ops s ops)) ->
              - Z.of_nat n <= i < Z.of_nat n.
Proof.
  unfold run_ops. induction 1 as [|op ops Hop _ IH]; intros s Hs; [exact Hs|].
  cbn [fold_left]. apply IH. intros i. rewrite exec_op_edited.
  destruct op; try apply Hs.
  intros [Hi|Hi]%elem_of_union; [|by apply Hs].
  apply elem_of_singleton in Hi as ->. exact Hop.
Qed.

Lemma getitem_is_Some {A} (l : list A) (i : Z) :
  - Z.of_nat (length l) <= i < Z.of_nat (length l) ->
  exists x, Py.getitem l i = Some x /\ x ∈ l.
Proof.
  intros Hi. unfold Py.getitem.
  destruct (decide (0 <= i)) as [Hpos|Hneg].
  - rewrite bool_decide_eq_true_2 by lia.
    destruct (lookup_lt_is_Some_2 l (Z.to_nat i)) as [x Hx]; [lia|].
    exists x. split; [exact Hx|]. by eapply list_elem_of_lookup_2.
  - rewrite bool_decide_eq_false_2 by lia. rewrite bool_decide_eq_true_2 by lia.
    destruct (lookup_lt_is_Some_2 l (Z.to_nat (Z.of_nat (length l) + i)))
      as [x Hx]; [lia|].
    exists x. split; [exact Hx|]. by eapply list_elem_of_lookup_2.
Qed.

Lemma summary_loop_returns (st : store) (et : edit_tracking) (idxs : list Z) :
  length (current et) = length (original et) ->
  Forall (fun l => is_Some (st !! l)) (original et) ->
  Forall (fun l => is_Some (st !! l)) (current et) ->
  Forall (fun i => - Z.of_nat (length (original et)) <= i
                   < Z.of_nat (length (original et))) idxs ->
  forall acc, is_Some (summary_loop st et idxs acc).
Proof.
  intros Hlen Ho Hc. rewrite Forall_forall in Ho, Hc.
  induction 1 as [|i idxs Hi _ IH]; intros acc; [by eexists|].
  cbn [summary_loop].
  destruct (getitem_is_Some (original et) i Hi) as (lo & Hgo & Hlo).
  destruct (Ho lo Hlo) as [eo Heo].
  rewrite <- Hlen in Hi.
  destruct (getitem_is_Some (current et) i Hi) as (lc & Hgc & Hlc).
  destruct (Hc lc Hlc) as [ec Hec].
  rewrite Hgo. cbn [mbind option_bind]. rewrite Heo. cbn [mbind option_bind].
  rewrite Hgc. cbn [mbind option_bind]. rewrite Hec. cbn [mbind option_bind].
  apply IH.
Qed.

(** X12: on a record made by [initialize_edit_tracking], after any run of
    edit statements in which every index added to the edited indices
    indexes the element list, [get_edit_summary] returns a text: it does
    not raise. *)
Theorem summary_returns_after_edits (st0 : store) (fd : file_data)
    (s1 : session) (ops : list edit_op) :
  valid_refs st0 (elements fd) ->
  initialize_edit_tracking st0 fd = Some s1 ->
  Forall (op_in_range (length (elements fd))) ops ->
  is_Some (get_edit_summary (fst (run_ops s1 ops)) (snd (run_ops s1 ops))).
Proof.
  intros Hv Hinit Hops.
  destruct (initialize_edit_tracking_spec st0 fd Hv)
    as (new1 & new2 & orig & cur & vs & Hinit' & Hin & Horig & Hcur & Hlo & Hhi).
  rewrite Hinit in Hinit'. injection Hinit' as ->.
  set (s1 := ((st0 ++ new1) ++ new2,
              {| original := orig; current := cur; edited_indices := ∅ |})) in *.
  destruct (run_ops_frame_current ops s1) as (Ho & Hc & _ & Hlen & _).
  pose proof (run_ops_edited_range (length (elements fd)) ops Hops s1) as Hrange.
  pose proof (read_list_below _ _ _ Horig) as Hbo.
  pose proof (read_list_below _ _ _ Hcur) as Hbc.
  apply read_list_Forall2 in Hin, Horig, Hcur.
  pose proof (Forall2_length _ _ _ Hin) as L1.
  pose proof (Forall2_length _ _ _ Horig) as L2.
  pose proof (Forall2_length _ _ _ Hcur) as L3.
  unfold get_edit_summary. case_bool_decide; [by eexists|].
  assert (Hret : is_Some (summary_loop (fst (run_ops s1 ops)) (snd (run_ops s1 ops))
              (sorted_indices (edited_indices (snd (run_ops s1 ops)))) []));
    [apply summary_loop_returns | destruct Hret as [parts ->]; by eexists].
  - rewrite Ho, Hc. cbn. congruence.
  - rewrite Ho. eapply Forall_impl; [exact Hbo|]. intros l Hl. simpl in *.
    apply lookup_lt_is_Some_2. by rewrite Hlen.
  - rewrite Hc. eapply Forall_impl; [exact Hbc|]. intros l Hl. simpl in *.
    apply lookup_lt_is_Some_2. by rewrite Hlen.
  - apply Forall_forall. intros i Hi%elem_of_sorted_indices.
    rewrite Ho. cbn [s1 snd original]. 
    replace (length orig) with (length (elements fd)) by congruence.
    apply Hrange; [|exact Hi]. intros j Hj. cbn in Hj.
    by apply not_elem_of_empty in Hj.
Qed.

Lemma summary_returns_after_edits_witness :
  (valid_refs sample_store (elements sample_file) /\
   initialize_edit_tracking sample_store sample_file = Some sample_session /\
   Forall (op_in_range (length (elements sample_file))) sample_edits) /\
  is_Some (get_edit_summary (fst (run_ops sample_session sample_edits))
                            (snd (run_ops sample_session sample_edits))).
Proof.
  assert (Hv : valid_refs sample_store (elements sample_file)).
  { repeat constructor. }
  assert (Hops : Forall (op_in_range (length (elements sample_file))) sample_edits).
  { repeat constructor; cbn; lia. }
  split; [split; [exact Hv|]; split; [reflexivity | exact Hops]|].
  apply (summary_returns_after_edits sample_store sample_file);
    [exact Hv | reflexivity | exact Hops].
Defined.

(** ** Palettes, labels and the preview *)

Lemma dict_get_fallback {V} (d : list (string * V)) (key : string) (fallback : V) :
  key ∉ map fst d -> dict_get d key fallback = fallback.
Proof.
  induction d as [|[k v] d IH]; intros Hnot; [reflexivity|].
  cbn [dict_get]. cbn [map fst] in Hnot.
  rewrite bool_decide_eq_false_2 by (intros ->; apply Hnot, elem_of_cons; by left).
  apply IH. intros Hin. apply Hnot, elem_of_cons. by right.
Qed.

(** X13: whatever the scheme name, the palette lists the same nine
    categories in the same order; a name that is none of the four known
    ones gives the Default palette, and a category that is none of the nine
    gets the fallback colour (255, 100, 100). *)
Theorem palette_fallbacks (scheme_name : string) :
  map fst (get_color_scheme scheme_name) = categories /\
  (scheme_name <> "Default" -> scheme_name <> "High Contrast" ->
   scheme_name <> "Pastel" -> scheme_name <> "Monochrome" ->
   get_color_scheme scheme_name = scheme_Default) /\
  (forall element_type, element_type ∉ categories ->
     dict_get (get_color_scheme scheme_name) element_type DEFAULT_COLOR
     = (255, 100, 100)).
Proof.
  assert (Hcat : map fst (get_color_scheme scheme_name) = categories).
  { unfold get_color_scheme, COLOR_SCHEMES. cbn [dict_get].
    repeat case_bool_decide; reflexivity. }
  split; [exact Hcat|]. split.
  - intros H1 H2 H3 H4. unfold get_color_scheme, COLOR_SCHEMES. cbn [dict_get].
    rewrite !bool_decide_eq_false_2 by congruence. reflexivity.
  - intros ty Hty. apply dict_get_fallback. by rewrite Hcat.
Qed.

(** Every operation an element contributes is on the finished overlay. *)
Lemma draw_loop_elem (colors : list (string * rgb)) (bw : Z) (tr : Q)
    (sn : bool) (els : list element) :
  forall (idx : Z) (overlay : list draw_op) (i : nat) (e : element),
    draw_loop colors bw tr sn idx els [] = Some overlay ->
    els !! i = Some e ->
    exists ops,
      draw_element colors bw tr sn (idx + Z.of_nat i) e = Some ops /\
      forall op, op ∈ ops -> op ∈ overlay.
Proof.
  induction els as [|e0 els IH]; intros idx overlay i e Hloop He; [discriminate|].
  rewrite draw_loop_cons in Hloop.
  destruct (draw_element colors bw tr sn idx e0) as [ops0|] eqn:Hops0;
    cbn [mbind option_bind] in Hloop; [|discriminate].
  destruct (draw_loop colors bw tr sn (idx + 1) els []) as [tail|] eqn:Htail;
    cbn [mbind option_bind] in Hloop; [|discriminate].
  injection Hloop as <-. destruct i as [|i].
  - injection He as <-. exists ops0.
    replace (idx + Z.of_nat 0) with idx by lia.
    split; [exact Hops0|]. intros op Hop. apply elem_of_app. by left.
  - destruct (IH (idx + 1) tail i e Htail He) as (ops & Hops & Hin).
    exists ops.
    replace (idx + Z.of_nat (S i)) with (idx + 1 + Z.of_nat i) by lia.
    split; [exact Hops|]. intros op Hop. apply elem_of_app. right. by apply Hin.
Qed.

(** X14: when every element is one that [draw.polygon] accepts, the
    overlay is drawn, and with numbers shown an element with coordinates is
    on it with its outline in the palette colour of its type and with a
    label, anchored at its first vertex, that reads its 1-based position in
    the full list, elements without coordinates counted. *)
Theorem label_is_position_in_list (els : list element) (bw : Z) (tr : Q)
    (cs : string) (i : nat) (e : element) (xy : point) (rest : list point) :
  Forall (drawable bw) els ->
  els !! i = Some e ->
  coordinates e = Some (xy :: rest) ->
  exists overlay r g b,
    draw_bounding_boxes els bw tr true cs = Some overlay /\
    dict_get (get_color_scheme cs) (type e) DEFAULT_COLOR = (r, g, b) /\
    Polygon (xy :: rest) (r, g, b, Py.int (inject_Z 255 * tr)%Q) bw ∈ overlay /\
    LabelBackground xy (Py.str (Z.of_nat i + 1))
                    (r, g, b, Py.int (inject_Z 255 * tr)%Q) ∈ overlay /\
    LabelText xy (Py.str (Z.of_nat i + 1)) (255, 255, 255, 255) ∈ overlay.
Proof.
  intros Hall He Hc. unfold draw_bounding_boxes.
  destruct (proj2 (draw_loop_is_Some (get_color_scheme cs) bw tr true els 1) Hall)
    as [overlay Hloop].
  destruct (dict_get (get_color_scheme cs) (type e) DEFAULT_COLOR)
    as [[r g] b] eqn:Hcol.
  exists overlay, r, g, b. split; [exact Hloop|]. split; [reflexivity|].
  destruct (draw_loop_elem _ _ _ _ _ _ _ _ _ Hloop He) as (ops & Hops & Hin).
  unfold draw_element in Hops. rewrite Hc, Hcol in Hops.
  destruct (polygon_raises (xy :: rest) bw); [discriminate|].
  injection Hops as <-.
  replace (1 + Z.of_nat i) with (Z.of_nat i + 1) in Hin by lia.
  repeat split; apply Hin.
  - apply elem_of_cons. by left.
  - apply elem_of_cons. right. apply elem_of_cons. by left.
  - apply elem_of_cons. right. apply elem_of_cons. right.
    apply elem_of_cons. by left.
Qed.

Lemma label_is_position_in_list_witness :
  (Forall (drawable 7) sample_store
   /\ sample_store !! 1%nat
      = Some {| type := "Table"; text := "a b"; coordinates := Some scenario_box |}
   /\ coordinates {| type := "Table"; text := "a b";
                     coordinates := Some scenario_box |}
      = Some ((inject_Z 100, inject_Z 100)
                :: [ (inject_Z 300, inject_Z 100); (inject_Z 300, inject_Z 200);
                     (inject_Z 100, inject_Z 200) ])) /\
  exists overlay r g b,
    draw_bounding_boxes sample_store 7 (7 # 10) true "Default" = Some overlay /\
    dict_get (get_color_scheme "Default") "Table" DEFAULT_COLOR = (r, g, b) /\
    Polygon scenario_box (r, g, b, Py.int (inject_Z 255 * (7 # 10))%Q) 7
      ∈ overlay /\
    LabelBackground (inject_Z 100, inject_Z 100) (Py.str (Z.of_nat 1 + 1))
                    (r, g, b, Py.int (inject_Z 255 * (7 # 10))%Q) ∈ overlay /\
    LabelText (inject_Z 100, inject_Z 100) (Py.str (Z.of_nat 1 + 1))
              (255, 255, 255, 255) ∈ overlay.
Proof.
  assert (Hdraw : Forall (drawable 7) sample_store).
  { repeat constructor. }
  split; [split; [exact Hdraw|]; split; reflexivity|].
  apply (label_is_position_in_list sample_store 7 (7 # 10) "Default" 1%nat
           {| type := "Table"; text := "a b"; coordinates := Some scenario_box |});
    [exact Hdraw | reflexivity | reflexivity].
Defined.






Lemma draw_box_comparison_two_points (coords adjusted : list point) :
  (2 <= length coords)%nat -> (2 <= length adjusted)%nat ->
  exists img, draw_box_comparison coords adjusted 7 = Some img
              /\ length img = 4%nat.
Proof.
  intros Hc Ha. unfold draw_box_comparison, polygon_raises.
  destruct coords as [|[ox oy] [|c2 coords]]; cbn in Hc; try lia.
  destruct adjusted as [|[ax ay] [|a2 adjusted]]; cbn in Ha; try lia.
  cbn. eexists. split; reflexivity.
Qed.

(** X16: the "Re-parse Region" preview.  An element without coordinates,
    or with an empty list, takes the warning branch.  For coordinates of at
    least two points nothing raises: both sizes and the adjusted rectangle
    are computed, the sizes are non-negative, no comparison image is drawn
    when all adjustments are zero, and otherwise the comparison image has
    its four operations.  For a single point the sizes are computed when
    all adjustments are zero, and a non-zero adjustment raises, from
    [draw.polygon] in [draw_box_comparison]. *)
Theorem reparse_preview_returns (elem : element) (l r t b W H : Z) :
  ((coordinates elem = None \/ coordinates elem = Some []) ->
   reparse_preview elem l r t b W H = Some None)
  /\
  (forall coords, coordinates elem = Some coords -> (2 <= length coords)%nat ->
   exists p,
     reparse_preview elem l r t b W H = Some (Some p) /\
     adjust_coordinates coords l r t b W H = Some (adjusted_coords p) /\
     0 <= fst (box_size p) /\ 0 <= snd (box_size p) /\
     0 <= fst (new_size p) /\ 0 <= snd (new_size p) /\
     ((l = 0 /\ r = 0 /\ t = 0 /\ b = 0) -> preview_img p = None) /\
     ((l <> 0 \/ r <> 0 \/ t <> 0 \/ b <> 0) ->
        exists img, preview_img p = Some img /\ length img = 4%nat))
  /\
  (forall pt, coordinates elem = Some [pt] ->
     ((l = 0 /\ r = 0 /\ t = 0 /\ b = 0) ->
        exists p, reparse_preview elem l r t b W H = Some (Some p)
                  /\ preview_img p = None) /\
     ((l <> 0 \/ r <> 0 \/ t <> 0 \/ b <> 0) ->
        reparse_preview elem l r t b W H = None)).
Proof.
  split; [|split].
  - unfold reparse_preview. by intros [->| ->].
  - intros coords Hc Hlen. unfold reparse_preview. rewrite Hc.
    destruct coords as [|p0 coords]; [cbn in Hlen; lia|].
    destruct (get_bounding_box_size_nonneg (p0 :: coords))
      as (w & h & Hsz & Hw & Hh); [discriminate|].
    destruct (adjust_coordinates_some (p0 :: coords) l r t b W H)
      as (min_x & max_x & min_y & max_y & _ & _ & _ & _ & Hadj); [discriminate|].
    rewrite Hsz, Hadj. cbn [mbind option_bind].
    match goal with
    | |- context [get_bounding_box_size ?R] =>
        destruct (get_bounding_box_size_nonneg R) as (w' & h' & Hsz' & Hw' & Hh');
          [discriminate|]; rewrite Hsz'
    end.
    cbn [mbind option_bind].
    case_bool_decide as Hnz.
    + match goal with
      | |- context [draw_box_comparison ?C ?A 7] =>
          destruct (draw_box_comparison_two_points C A) as (img & Himg & Hfour);
            [exact Hlen | cbn; lia | rewrite Himg]
      end.
      cbn. eexists. split; [reflexivity|].
      cbn. repeat split; try assumption.
      * intros (-> & -> & -> & ->). exfalso.
        destruct Hnz as [Hz|[Hz|[Hz|Hz]]]; by apply Hz.
      * intros _. by exists img.
    + cbn. eexists. split; [reflexivity|].
      cbn. repeat split; try assumption. intros Hnz'. contradiction.
  - intros pt Hc. unfold reparse_preview. rewrite Hc.
    destruct (get_bounding_box_size_nonneg [pt])
      as (w & h & Hsz & Hw & Hh); [discriminate|].
    destruct (adjust_coordinates_some [pt] l r t b W H)
      as (min_x & max_x & min_y & max_y & _ & _ & _ & _ & Hadj); [discriminate|].
    rewrite Hsz, Hadj. cbn [mbind option_bind].
    match goal with
    | |- context [get_bounding_box_size ?R] =>
        destruct (get_bounding_box_size_nonneg R) as (w' & h' & Hsz' & Hw' & Hh');
          [discriminate|]; rewrite Hsz'
    end.
    cbn [mbind option_bind]. split.
    + intros (-> & -> & -> & ->).
      rewrite bool_decide_eq_false_2 by (intros [Hz|[Hz|[Hz|Hz]]]; by apply Hz).
      cbn. eexists. split; reflexivity.
    + intros Hnz. rewrite bool_decide_eq_true_2 by exact Hnz. reflexivity.
Qed.

Lemma reparse_preview_returns_witness :
  (coordinates {| type := "Table"; text := "a b"; coordinates := Some scenario_box |}
     = Some scenario_box /\ (2 <= length scenario_box)%nat) /\
  exists p,
    reparse_preview
      {| type := "Table"; text := "a b"; coordinates := Some scenario_box |}
      (-250) 0 0 0 400 300 = Some (Some p) /\
    adjust_coordinates scenario_box (-250) 0 0 0 400 300
      = Some (adjusted_coords p) /\
    0 <= fst (new_size p).
Proof.
  assert (Hlen : (2 <= length scenario_box)%nat) by (cbn; lia).
  split; [split; [reflexivity | exact Hlen]|].
  destruct (proj1 (proj2 (reparse_preview_returns
              {| type := "Table"; text := "a b"; coordinates := Some scenario_box |}
              (-250) 0 0 0 400 300)) scenario_box eq_refl Hlen)
    as (p & Hp & Hadj & _ & _ & Hw & _).
  exists p. split; [exact Hp|]. split; [exact Hadj | exact Hw].
Defined.

(** ** Parsing files *)

Lemma structure_loop_spec (raws : list raw_element) :
  forall (st : store) (parsed_elements : list loc) (full_text_parts : list string),
    structure_loop st raws parsed_elements full_text_parts
    = (st ++ map element_data raws,
       parsed_elements ++ seq (length st) (length raws),
       full_text_parts ++ map raw_text raws).
Proof.
  induction raws as [|r raws IH]; intros st pe ftp; cbn [structure_loop].
  - by rewrite !app_nil_r.
  - rewrite IH, length_app. cbn [length map seq].
    rewrite <- !app_assoc. cbn [app].
    by replace (length st + 1)%nat with (S (length st)) by lia.
Qed.

Lemma parse_single_tiff_spec (partition_image : string -> option (list raw_element))
    (path_name : string -> string) (st : store) (file_path : string)
    (raws : list raw_element) :
  partition_image file_path = Some raws ->
  parse_single_tiff partition_image path_name st file_path
  = Some (st ++ map element_data raws,
          {| filename := path_name file_path;
             filepath := file_path;
             elements := seq (length st) (length raws);
             full_text := Py.join blank_line (map raw_text raws) |}).
Proof.
  intros Hp. unfold parse_single_tiff. rewrite Hp. cbn [mbind option_bind].
  by rewrite structure_loop_spec.
Qed.

Lemma read_list_fresh (vs : list element) :
  forall st : store, read_list (st ++ vs) (seq (length st) (length vs)) = Some vs.
Proof.
  induction vs as [|v vs IH]; intros st; [reflexivity|].
  cbn [length seq]. apply read_list_Forall2. constructor.
  - by apply list_lookup_middle.
  - apply read_list_Forall2.
    replace (st ++ v :: vs) with ((st ++ [v]) ++ vs) by (by rewrite <- app_assoc).
    replace (S (length st)) with (length (st ++ [v]))
      by (rewrite length_app; simpl; lia).
    apply IH.
Qed.

(** X20: a file that [partition_image] can read gives a parse result whose
    element dictionaries are new, distinct objects, one per element and in
    order, with the category, text and points of each; and on the record
    [initialize_edit_tracking] then makes of it, the text offered for
    download before any edit is the parse result's [full_text].  A file
    that [partition_image] cannot read makes [parse_single_tiff] raise. *)
Theorem parse_single_tiff_round_trip
    (partition_image : string -> option (list raw_element))
    (path_name : string -> string) (st : store) (file_path : string) :
  (partition_image file_path = None ->
   parse_single_tiff partition_image path_name st file_path = None)
  /\
  (forall raws, partition_image file_path = Some raws ->
   exists st1 fd,
     parse_single_tiff partition_image path_name st file_path = Some (st1, fd) /\
     filepath fd = file_path /\ filename fd = path_name file_path /\
     (forall l, l ∈ elements fd -> st !! l = None) /\
     NoDup (elements fd) /\
     read_list st1 (elements fd) = Some (map element_data raws) /\
     full_text fd = current_full_text (map element_data raws) /\
     exists s,
       initialize_edit_tracking st1 fd = Some s /\
       read_list (fst s) (current (snd s)) = Some (map element_data raws)).
Proof.
  split.
  - intros Hp. unfold parse_single_tiff. by rewrite Hp.
  - intros raws Hp. do 2 eexists.
    split; [by apply parse_single_tiff_spec|]. cbn [filepath filename elements full_text].
    split; [reflexivity|]. split; [reflexivity|]. split.
    { intros l [Hl _]%elem_of_seq. apply lookup_ge_None_2. lia. }
    split; [apply NoDup_seq|].
    assert (Hread : read_list (st ++ map element_data raws)
                      (seq (length st) (length raws))
                    = Some (map element_data raws)).
    { rewrite <- (length_map element_data raws). apply read_list_fresh. }
    split; [exact Hread|]. split.
    { unfold current_full_text. by rewrite map_map. }
    destruct (initialize_edit_tracking_spec (st ++ map element_data raws)
                {| filename := path_name file_path; filepath := file_path;
                   elements := seq (length st) (length raws);
                   full_text := Py.join blank_line (map raw_text raws) |})
      as (new1 & new2 & orig & cur & vs & Hinit & Hin & _ & Hcur & _).
    { by eapply read_list_below. }
    cbn [elements] in Hin. rewrite Hread in Hin. injection Hin as <-.
    eexists. split; [exact Hinit|]. exact Hcur.
Qed.

Lemma parse_single_tiff_round_trip_witness :
  sample_partition "data/a.tif"
    = Some [ {| category := "Title"; raw_text := "Report"; raw_points := None |};
             {| category := "Table"; raw_text := "a b";
                raw_points := Some scenario_box |} ] /\
  exists st1 fd,
    parse_single_tiff sample_partition sample_name [] "data/a.tif" = Some (st1, fd) /\
    read_list st1 (elements fd) = Some sample_store /\
    full_text fd = current_full_text sample_store.
Proof.
  split; [reflexivity|].
  destruct (proj2 (parse_single_tiff_round_trip sample_partition sample_name []
                     "data/a.tif") _ eq_refl)
    as (st1 & fd & Hparse & _ & _ & _ & _ & Hread & Hfull & _).
  exists st1, fd. split; [exact Hparse|]. split; [exact Hread | exact Hfull].
Defined.

Lemma dict_set_keys {V} (d : list (string * V)) (key : string) (value : V)
    (k : string) :
  k ∈ map fst (dict_set d key value) <-> k = key \/ k ∈ map fst d.
Proof.
  induction d as [|[k0 v0] d IH]; cbn [dict_set map fst].
  - rewrite list_elem_of_singleton. split; [by left|].
    intros [->|H]; [reflexivity|]. by apply elem_of_nil in H.
  - case_bool_decide as Hk; cbn [map fst]; rewrite !elem_of_cons.
    + subst k0. tauto.
    + rewrite IH. tauto.
Qed.

Lemma dict_set_Forall {V} (P : string * V -> Prop) (d : list (string * V))
    (key : string) (value : V) :
  P (key, value) -> Forall P d -> Forall P (dict_set d key value).
Proof.
  intros Hnew. induction 1 as [|[k0 v0] d Hx Hd IH]; cbn [dict_set].
  - by constructor.
  - case_bool_decide as Hk; constructor; try assumption. by subst k0.
Qed.

Lemma parse_loop_spec (partition_image : string -> option (list raw_element))
    (path_name : string -> string) (all_files : list string)
    (tiff_files : list string) :
  forall (st : store) (results : list (string * file_data)),
    (forall p, p ∈ tiff_files -> p ∈ all_files) ->
    Forall (fun kv => filename (snd kv) = fst kv /\ filepath (snd kv) ∈ all_files
                      /\ is_Some (partition_image (filepath (snd kv)))) results ->
    (forall k,
       k ∈ map fst (snd (parse_loop partition_image path_name st tiff_files results))
       <-> k ∈ map fst results
           \/ exists p, p ∈ tiff_files /\ is_Some (partition_image p)
                        /\ path_name p = k) /\
    Forall (fun kv => filename (snd kv) = fst kv /\ filepath (snd kv) ∈ all_files
                      /\ is_Some (partition_image (filepath (snd kv))))
           (snd (parse_loop partition_image path_name st tiff_files results)).
Proof.
  induction tiff_files as [|p files IH]; intros st results Hsub Hinv.
  - cbn [parse_loop snd]. split; [|exact Hinv].
    intros k. split; [by left|]. intros [H|(p & Hp & _)]; [exact H|].
    by apply elem_of_nil in Hp.
  - cbn [parse_loop].
    assert (Hsub' : forall q, q ∈ files -> q ∈ all_files).
    { intros q Hq. apply Hsub, elem_of_cons. by right. }
    destruct (partition_image p) as [raws|] eqn:Hp.
    + rewrite (parse_single_tiff_spec _ _ _ _ _ Hp). cbn [filename].
      edestruct (IH (st ++ map element_data raws)) as [Hkeys Hall];
        [exact Hsub' | | split; [|exact Hall]].
      * apply dict_set_Forall; [|exact Hinv]. cbn [fst snd filename filepath].
        split; [reflexivity|]. split; [apply Hsub, elem_of_cons; by left|].
        rewrite Hp. by eexists.
      * intros k. rewrite Hkeys, dict_set_keys. split.
        -- intros [[->|H]|(q & Hq & Hs & Hn)].
           ++ right. exists p. split; [apply elem_of_cons; by left|].
              split; [rewrite Hp; by eexists | reflexivity].
           ++ by left.
           ++ right. exists q. split; [apply elem_of_cons; by right|]. by split.
        -- intros [H|(q & [->|Hq]%elem_of_cons & Hs & Hn)].
           ++ left. by right.
           ++ left. left. by symmetry.
           ++ right. exists q. by repeat split.
    + assert (Hnone : parse_single_tiff partition_image path_name st p = None).
      { unfold parse_single_tiff. by rewrite Hp. }
      rewrite Hnone.
      destruct (IH st results Hsub' Hinv) as [Hkeys Hall]. split; [|exact Hall].
      intros k. rewrite Hkeys. split.
      * intros [H|(q & Hq & Hs & Hn)]; [by left|].
        right. exists q. split; [apply elem_of_cons; by right|]. by split.
      * intros [H|(q & [->|Hq]%elem_of_cons & Hs & Hn)]; [by left| |].
        -- rewrite Hp in Hs. by destruct Hs.
        -- right. exists q. by repeat split.
Qed.

(** X21: [parse_all_tiffs] raises the scan's not-found error when the
    folder does not exist.  On an existing folder it returns, and a file
    whose parse raises does not stop the others: the keys of the result
    are exactly the names of the scanned files that [partition_image] can
    read, and every entry holds the parse result of such a file under its
    own name. *)
Theorem parse_all_tiffs_skips_failures (fs : filesystem)
    (partition_image : string -> option (list raw_element))
    (path_name : string -> string) (st : store) (folder_path : string) :
  (fs folder_path = None ->
   parse_all_tiffs fs partition_image path_name st folder_path
   = inl ("Folder not found: " +:+ folder_path))
  /\
  (forall entries, fs folder_path = Some entries ->
   exists tiff_files st' results,
     scan_data_folder fs folder_path = inr tiff_files /\
     parse_all_tiffs fs partition_image path_name st folder_path
       = inr (st', results) /\
     (forall k, k ∈ map fst results <->
        exists p, p ∈ tiff_files /\ is_Some (partition_image p)
                  /\ path_name p = k) /\
     Forall (fun kv => filename (snd kv) = fst kv
                       /\ filepath (snd kv) ∈ tiff_files
                       /\ is_Some (partition_image (filepath (snd kv))))
            results).
Proof.
  split.
  - intros Hfs. unfold parse_all_tiffs, scan_data_folder. by rewrite Hfs.
  - intros entries Hfs. unfold parse_all_tiffs.
    destruct (scan_data_folder fs folder_path) as [err|tiff_files] eqn:Hscan.
    { unfold scan_data_folder in Hscan. rewrite Hfs in Hscan. discriminate. }
    destruct (parse_loop_spec partition_image path_name tiff_files tiff_files
                st [] (fun p H => H) (Forall_nil_2 _)) as [Hkeys Hall].
    exists tiff_files,
      (fst (parse_loop partition_image path_name st tiff_files [])),
      (snd (parse_loop partition_image path_name st tiff_files [])).
    split; [reflexivity|]. split.
    { destruct tiff_files; [reflexivity|]. by rewrite <- surjective_pairing. }
    split; [|exact Hall].
    intros k. rewrite Hkeys. split.
    + intros [H|H]; [by apply elem_of_nil in H | exact H].
    + intros H. by right.
Qed.

Lemma parse_all_tiffs_skips_failures_witness :
  sample_folder "data" = Some ["c.tif"; "a.tif"; "b.tif"] /\
  sample_partition "data/b.tif" = None /\
  exists tiff_files st' results,
    scan_data_folder sample_folder "data" = inr tiff_files /\
    parse_all_tiffs sample_folder sample_partition sample_name [] "data"
      = inr (st', results) /\
    (forall k, k ∈ map fst results <->
       exists p, p ∈ tiff_files /\ is_Some (sample_partition p)
                 /\ sample_name p = k).
Proof.
  split; [reflexivity|]. split; [reflexivity|].
  destruct (proj2 (parse_all_tiffs_skips_failures sample_folder sample_partition
                     sample_name [] "data") _ eq_refl)
    as (tiff_files & st' & results & Hscan & Hparse & Hkeys & _).
  exists tiff_files, st', results. split; [exact Hscan|].
  split; [exact Hparse | exact Hkeys].
Defined.

(** ** Figures of the page *)

Lemma dict_get_set {V} (d : list (string * V)) (key : string) (value : V)
    (k : string) (fallback : V) :
  dict_get (dict_set d key value) k fallback
  = if bool_decide (key = k) then value else dict_get d k fallback.
Proof.
  induction d as [|[k0 v0] d IH]; cbn [dict_set dict_get].
  - reflexivity.
  - destruct (bool_decide (k0 = key)) eqn:Hk0; cbn [dict_get].
    + apply bool_decide_eq_true in Hk0 as ->.
      by destruct (bool_decide (key = k)).
    + apply bool_decide_eq_false in Hk0. rewrite IH.
      destruct (bool_decide (k0 = k)) eqn:Hk; [|reflexivity].
      apply bool_decide_eq_true in Hk as ->.
      by rewrite bool_decide_eq_false_2 by congruence.
Qed.

Lemma dict_set_NoDup {V} (d : list (string * V)) (key : string) (value : V) :
  NoDup (map fst d) -> NoDup (map fst (dict_set d key value)).
Proof.
  induction d as [|[k0 v0] d IH]; cbn [dict_set map fst]; intros Hnd.
  - apply NoDup_singleton.
  - apply NoDup_cons in Hnd as [Hnot Hnd].
    case_bool_decide as Hk; cbn [map fst]; apply NoDup_cons.
    + by split.
    + split; [|by apply IH]. rewrite dict_set_keys. intros [->|Hin]; congruence.
Qed.

Lemma count_types_loop_spec (els : list element) :
  forall (d : list (string * Z)),
    NoDup (map fst d) ->
    (forall t, dict_get (count_types_loop els d) t 0
               = dict_get d t 0
                 + Z.of_nat (length (filter (fun e => type e = t) els))) /\
    NoDup (map fst (count_types_loop els d)) /\
    (forall t, t ∈ map fst (count_types_loop els d)
               <-> t ∈ map fst d \/ exists e, e ∈ els /\ type e = t).
Proof.
  induction els as [|e els IH]; intros d Hnd; cbn [count_types_loop].
  - split; [intros t; cbn; lia|]. split; [exact Hnd|].
    intros t. split; [by left|]. intros [H|(e & He & _)]; [exact H|].
    by apply elem_of_nil in He.
  - destruct (IH (dict_set d (type e) (dict_get d (type e) 0 + 1))
                 (dict_set_NoDup _ _ _ Hnd)) as (Hget & Hnd' & Hkeys).
    split; [|split; [exact Hnd'|]].
    + intros t. rewrite Hget, dict_get_set, filter_cons.
      destruct (decide (type e = t)) as [->|Hne].
      * rewrite bool_decide_eq_true_2 by reflexivity. cbn [length]. lia.
      * rewrite bool_decide_eq_false_2 by exact Hne. lia.
    + intros t. rewrite Hkeys, dict_set_keys. split.
      * intros [[->|H]|(e' & He' & Ht)].
        -- right. exists e. split; [apply elem_of_cons; by left | reflexivity].
        -- by left.
        -- right. exists e'. split; [apply elem_of_cons; by right | exact Ht].
      * intros [H|(e' & [->|He']%elem_of_cons & Ht)].
        -- left. by right.
        -- left. left. by symmetry.
        -- right. exists e'. by split.
Qed.

(** X22: the type counts shown on the page: each type is listed once, the
    types listed are exactly those that occur among the elements, and the
    count of a type is the number of elements of that type (zero, through
    the fallback, for a type that does not occur). *)
Theorem count_types_counts (els : list element) :
  (forall t, dict_get (count_types els) t 0
             = Z.of_nat (length (filter (fun e => type e = t) els))) /\
  NoDup (map fst (count_types els)) /\
  (forall t, t ∈ map fst (count_types els) <-> exists e, e ∈ els /\ type e = t).
Proof.
  destruct (count_types_loop_spec els [] (NoDup_nil_2 (A:=string))) as (Hget & Hnd & Hkeys).
  split; [|split; [exact Hnd|]].
  - intros t. unfold count_types. rewrite Hget. cbn [dict_get]. lia.
  - intros t. unfold count_types. rewrite Hkeys. split.
    + intros [H|H]; [by apply elem_of_nil in H | exact H].
    + intros H. by right.
Qed.

(** ** File discovery: instances *)

Lemma scan_data_folder_found_witness :
  sample_folder "data" = Some ["c.tif"; "a.tif"; "b.tif"] /\
  exists names,
    scan_data_folder sample_folder "data" = inr (map (path_str "data") names) /\
    Sorted name_le names /\
    names ≡ₚ glob_star ["c.tif"; "a.tif"; "b.tif"] ".tiff"
              ++ glob_star ["c.tif"; "a.tif"; "b.tif"] ".tif"
              ++ glob_star ["c.tif"; "a.tif"; "b.tif"] ".TIFF"
              ++ glob_star ["c.tif"; "a.tif"; "b.tif"] ".TIF".
Proof.
  split; [reflexivity|].
  apply (scan_data_folder_found sample_folder "data"). reflexivity.
Defined.

Lemma scan_data_folder_no_match_witness :
  ((fun path : string => if String.eqb path "data" then Some ["notes.txt"; "scan.Tif"]
                         else None) "data" = Some ["notes.txt"; "scan.Tif"]
   /\ Forall (fun name => ends_with ".tiff" name = false
                          /\ ends_with ".tif" name = false
                          /\ ends_with ".TIFF" name = false
                          /\ ends_with ".TIF" name = false)
             ["notes.txt"; "scan.Tif"]) /\
  scan_data_folder
    (fun path : string => if String.eqb path "data" then Some ["notes.txt"; "scan.Tif"]
                          else None) "data" = inr [].
Proof.
  assert (Hnone : Forall (fun name => ends_with ".tiff" name = false
                          /\ ends_with ".tif" name = false
                          /\ ends_with ".TIFF" name = false
                          /\ ends_with ".TIF" name = false)
             ["notes.txt"; "scan.Tif"]).
  { repeat constructor. }
  split; [split; [reflexivity | exact Hnone]|].
  apply (scan_data_folder_no_match _ "data" ["notes.txt"; "scan.Tif"]);
    [reflexivity | exact Hnone].
Defined.

(** ** File discovery: no file twice *)

Lemma substring_to_list (s : string) :
  forall n m : nat,
    list_ascii_of_string (substring n m s)
    = take m (drop n (list_ascii_of_string s)).
Proof.
  induction s as [|c s IH]; intros n m.
  - destruct n, m; reflexivity.
  - destruct n as [|n].
    + destruct m as [|m]; [reflexivity|]. cbn. by rewrite IH.
    + cbn. apply IH.
Qed.

Lemma length_to_list (s : string) :
  length (list_ascii_of_string s) = String.length s.
Proof. induction s as [|c s IH]; [reflexivity|]. cbn. by rewrite IH. Qed.

(** A name that matches [*suffix] ends with the characters of [suffix]. *)
Lemma ends_with_drop (suffix name : string) :
  ends_with suffix name = true ->
  (String.length suffix <= String.length name)%nat /\
  drop (String.length name - String.length suffix) (list_ascii_of_string name)
  = list_ascii_of_string suffix.
Proof.
  unfold ends_with. intros [Hlen Heq]%andb_true_iff.
  apply Nat.leb_le in Hlen. apply String.eqb_eq in Heq. split; [exact Hlen|].
  rewrite <- Heq at 2. rewrite substring_to_list, take_ge; [reflexivity|].
  rewrite length_drop, length_to_list. lia.
Qed.

(** A name matches at most one of two patterns whose suffixes differ in
    one of their last characters. *)
Lemma ends_with_exclusive (s1 s2 name : string) :
  (String.length s1 <= String.length s2)%nat ->
  drop (String.length s2 - String.length s1) (list_ascii_of_string s2)
    <> list_ascii_of_string s1 ->
  ends_with s1 name = true -> ends_with s2 name = true -> False.
Proof.
  intros Hle Hdiff [Hl1 H1]%ends_with_drop [Hl2 H2]%ends_with_drop.
  apply Hdiff. rewrite <- H1, <- H2, drop_drop. f_equal. lia.
Qed.

Lemma tiff_patterns_exclusive (name : string) :
  (ends_with ".tiff" name = true -> ends_with ".tif" name = true -> False) /\
  (ends_with ".tiff" name = true -> ends_with ".TIFF" name = true -> False) /\
  (ends_with ".tiff" name = true -> ends_with ".TIF" name = true -> False) /\
  (ends_with ".tif" name = true -> ends_with ".TIFF" name = true -> False) /\
  (ends_with ".tif" name = true -> ends_with ".TIF" name = true -> False) /\
  (ends_with ".TIFF" name = true -> ends_with ".TIF" name = true -> False).
Proof.
  repeat split; intros Ha Hb.
  - apply (ends_with_exclusive ".tif" ".tiff" name);
      [cbn; lia | cbn; discriminate | assumption | assumption].
  - apply (ends_with_exclusive ".tiff" ".TIFF" name);
      [cbn; lia | cbn; discriminate | assumption | assumption].
  - apply (ends_with_exclusive ".TIF" ".tiff" name);
      [cbn; lia | cbn; discriminate | assumption | assumption].
  - apply (ends_with_exclusive ".tif" ".TIFF" name);
      [cbn; lia | cbn; discriminate | assumption | assumption].
  - apply (ends_with_exclusive ".tif" ".TIF" name);
      [cbn; lia | cbn; discriminate | assumption | assumption].
  - apply (ends_with_exclusive ".TIF" ".TIFF" name);
      [cbn; lia | cbn; discriminate | assumption | assumption].
Qed.

Lemma append_inj_r (p a b : string) : p +:+ a = p +:+ b -> a = b.
Proof. induction p as [|c p IH]; cbn; [done|]. intros [= H]. by apply IH. Qed.

Lemma NoDup_map_inj {A B} (f : A -> B) (l : list A) :
  (forall x y, f x = f y -> x = y) -> NoDup l -> NoDup (map f l).
Proof.
  intros Hinj. induction 1 as [|x l Hx _ IH]; cbn [map]; constructor; [|exact IH].
  intros Hin. apply list_elem_of_In, in_map_iff in Hin as (y & Hy & Hin).
  apply Hinj in Hy as ->. by apply Hx, list_elem_of_In.
Qed.

Lemma glob_star_elem (entries : list string) (suffix name : string) :
  name ∈ glob_star entries suffix
  <-> ends_with suffix name = true /\ name ∈ entries.
Proof.
  unfold glob_star.
  apply (list_elem_of_filter (fun n => ends_with suffix n = true)).
Qed.

(** X23: the scan lists no file twice: when the entries of the folder are
    distinct names, so are the paths returned, because a name matches at
    most one of the four patterns. *)
Theorem scan_data_folder_no_duplicates (fs : filesystem) (folder_path : string)
    (entries : list string) :
  fs folder_path = Some entries ->
  NoDup entries ->
  exists paths, scan_data_folder fs folder_path = inr paths /\ NoDup paths.
Proof.
  intros Hfs Hnd.
  destruct (scan_data_folder_found fs folder_path entries Hfs)
    as (names & -> & _ & Hperm).
  eexists. split; [reflexivity|].
  apply NoDup_map_inj.
  { intros a b Hab. unfold path_str in Hab.
    by do 2 apply append_inj_r in Hab. }
  rewrite Hperm.
  assert (Hg : forall suffix, NoDup (glob_star entries suffix)).
  { intros suffix. unfold glob_star. by apply NoDup_filter. }
  repeat (apply NoDup_app; split; [apply Hg|]; split; [|]); try apply Hg;
    intros name Ha; rewrite ?elem_of_app, !glob_star_elem;
    apply glob_star_elem in Ha as [Ha _];
    destruct (tiff_patterns_exclusive name) as (E1 & E2 & E3 & E4 & E5 & E6);
    tauto.
Qed.

Lemma scan_data_folder_no_duplicates_witness :
  (sample_folder "data" = Some ["c.tif"; "a.tif"; "b.tif"]
   /\ NoDup ["c.tif"; "a.tif"; "b.tif"]) /\
  exists paths, scan_data_folder sample_folder "data" = inr paths /\ NoDup paths.
Proof.
  assert (Hnd : NoDup ["c.tif"; "a.tif"; "b.tif"]).
  { apply NoDup_ListNoDup. repeat constructor; cbn; intuition discriminate. }
  split; [split; [reflexivity | exact Hnd]|].
  apply (scan_data_folder_no_duplicates sample_folder "data" _ eq_refl Hnd).
Defined.
